(** * Hockey team balancer: a shallow embedding of [hockey_team_balancer_gui.py]

    The development follows the source file top to bottom: the text
    helpers Python supplies ([str], [strip], [upper]), the worksheet cells
    pandas hands over, [is_selected], the team accumulator with [can_add]
    and [assign_player], the greedy constructor [attempt_build] and the
    search driver [build_teams].  The theorems come after the definitions. *)

From Stdlib Require Import List ZArith Lia Bool Ascii String Permutation.
From Stdlib Require Import DecimalString DecimalPos DecimalZ.
Import ListNotations.

(* ------------------------------------------------------------------ *)
(** ** Exceptions *)

(** The exceptions that can leave [build_teams].  The two [raise]
    statements of the source are [ValueError]s told apart by their message;
    the others are named after the class Python raises. [RankError] stands
    for whatever [int(row["Rank"])] raises on a cell it refuses (ValueError,
    TypeError or OverflowError). *)
Inductive exn : Type :=
| ValueError (msg : string)
| RankError
| AttributeError
| TypeError
| KeyError.

Inductive result (A : Type) : Type :=
| Ok (a : A)
| Raise (e : exn).

Arguments Ok {A} a.
Arguments Raise {A} e.

Definition bind {A B : Type} (c : result A) (k : A -> result B) : result B :=
  match c with
  | Ok a => k a
  | Raise e => Raise e
  end.

Declare Scope result_scope.
Delimit Scope result_scope with result.
Notation "x <- c ;; k" := (bind c (fun x => k))
  (at level 61, c at next level, right associativity) : result_scope.

(* ------------------------------------------------------------------ *)
(** ** Text: the part of Python's [str] the program uses

    A character code is the Unicode code point of the character, so that a
    text of this type is a Python text whose characters lie in U+0000 to
    U+00FF.  The blank characters are modelled on that whole range.  The
    case of letters is modelled for 7-bit text (codes below 128), where
    only a-z have an upper case; a letter from 128 up is left as it is,
    some of them having their upper case beyond U+00FF.  Whatever is
    stated about the reading of cell text is therefore stated for 7-bit
    text ([seven_bit] below). *)

Module PyStr.

Open Scope string_scope.

(** [str.isspace] on one character, the blanks [str.strip] removes: tab,
    line feed, vertical tab, form feed, carriage return, the four
    separators 0x1C-0x1F, space, next line (U+0085) and no-break space
    (U+00A0). *)
Definition isspace (c : ascii) : bool :=
  let n := nat_of_ascii c in
  ((9 <=? n) && (n <=? 13) || (28 <=? n) && (n <=? 32)
   || (n =? 133) || (n =? 160))%nat.

Definition is_lower (c : ascii) : bool :=
  let n := nat_of_ascii c in ((97 <=? n) && (n <=? 122))%nat.

Definition is_upper (c : ascii) : bool :=
  let n := nat_of_ascii c in ((65 <=? n) && (n <=? 90))%nat.

(** The upper case of a 7-bit character. *)
Definition upper_char (c : ascii) : ascii :=
  if is_lower c then ascii_of_nat (nat_of_ascii c - 32) else c.

Definition lower_char (c : ascii) : ascii :=
  if is_upper c then ascii_of_nat (nat_of_ascii c + 32) else c.

(** [s.upper()], for a 7-bit text [s]. *)
Fixpoint upper (s : string) : string :=
  match s with
  | EmptyString => EmptyString
  | String c s' => String (upper_char c) (upper s')
  end.

Fixpoint lstrip (s : string) : string :=
  match s with
  | EmptyString => EmptyString
  | String c s' => if isspace c then lstrip s' else s
  end.

Fixpoint rstrip (s : string) : string :=
  match s with
  | EmptyString => EmptyString
  | String c s' =>
      match rstrip s' with
      | EmptyString => if isspace c then EmptyString else String c EmptyString
      | r => String c r
      end
  end.

(** [s.strip()] *)
Definition strip (s : string) : string := rstrip (lstrip s).

(** [x in xs] for a list of strings. *)
Definition mem (x : string) (xs : list string) : bool :=
  existsb (String.eqb x) xs.

(** Two texts that differ at most in the case of their letters: the
    reading of "case-insensitive" the specification is compared with.  It
    is stated through lower-casing, character by character, and so
    independently of [upper]. *)
Fixpoint eq_ignore_case (s t : string) : Prop :=
  match s, t with
  | EmptyString, EmptyString => True
  | String c s', String d t' => lower_char c = lower_char d /\ eq_ignore_case s' t'
  | _, _ => False
  end.

(** The table of all characters, for properties checked by enumeration. *)
Definition every_ascii : list ascii := map ascii_of_nat (seq 0 256).

End PyStr.

(* ------------------------------------------------------------------ *)
(** ** Worksheet cells *)

(** The values [pd.isna] answers [True] for. *)
Inductive missing : Type := PyNone | NaN | NaT | NA.

(** A scalar as [df.iterrows()] yields it.  A float other than NaN is kept
    through the two observations the program makes of it: the text [str]
    prints for it and the integer [int] truncates it to ([None] for an
    infinity, where [int] raises OverflowError). *)
Inductive value : Type :=
| VMissing (m : missing)
| VBool (b : bool)
| VInt (z : Z)
| VStr (s : string)
| VFloat (repr : string) (trunc : option Z).

Definition isna (v : value) : bool :=
  match v with
  | VMissing _ => true
  | _ => false
  end.

(** [str(value)] *)
Definition py_str (v : value) : string :=
  match v with
  | VMissing PyNone => "None"
  | VMissing NaN => "nan"
  | VMissing NaT => "NaT"
  | VMissing NA => "<NA>"
  | VBool true => "True"
  | VBool false => "False"
  | VInt z => NilZero.string_of_int (Z.to_int z)
  | VStr s => s
  | VFloat repr _ => repr
  end%string.

(* ------------------------------------------------------------------ *)
(** ** Player and configuration *)

Record Player : Type := mkPlayer {
  name : string;
  rank : Z;
  position : string
}.

Definition FORWARDS_TARGET : nat := 6.
Definition DEFENCE_TARGET : nat := 4.
Definition ITERATIONS : nat := 7 * 1000.

(* ------------------------------------------------------------------ *)
(** ** Helpers *)

Definition TRUTHY : list string := ["TRUE"; "1"; "YES"; "Y"]%string.

Definition is_selected (v : value) : bool :=
  if isna v then false
  else PyStr.mem (PyStr.upper (PyStr.strip (py_str v))) TRUTHY.

(** The specification's reading of the eligibility rule: the trimmed text
    of the value is, up to the case of letters, one of the four words. *)
Definition selected_spec (v : value) : Prop :=
  exists w, In w TRUTHY /\ PyStr.eq_ignore_case (PyStr.strip (py_str v)) w.

(** A team is the dict [{"F": [], "D": [], "total": 0}]. *)
Record team : Type := mkTeam {
  F : list Player;
  D : list Player;
  total : Z
}.

Definition empty_team : team := {| F := []; D := []; total := 0 |}.

Definition can_add (t : team) (pos : string) : bool :=
  if (pos =? "F")%string then (List.length (F t) <? FORWARDS_TARGET)%nat
  else if (pos =? "D")%string then (List.length (D t) <? DEFENCE_TARGET)%nat
  else false.

(** [team[pos].append(player); team["total"] += player.rank].  A [pos] that
    is no key of the dict raises KeyError, and ["total"] holds an integer,
    which has no [append]; both raise before anything is changed. *)
Definition assign_player (t : team) (player : Player) (pos : string) : result team :=
  if (pos =? "F")%string then
    Ok {| F := F t ++ [player]; D := D t; total := total t + rank player |}
  else if (pos =? "D")%string then
    Ok {| F := F t; D := D t ++ [player]; total := total t + rank player |}
  else if (pos =? "total")%string then Raise AttributeError
  else Raise KeyError.

(* ------------------------------------------------------------------ *)
(** ** Core optimizer *)

(** The two dicts one attempt works on.  [options] holds references to
    them, not copies: a reference is [RefA] or [RefB]. *)
Record teams : Type := mkTeams {
  team_a : team;
  team_b : team
}.

Inductive team_ref : Type := RefA | RefB.

Definition deref (h : teams) (r : team_ref) : team :=
  match r with
  | RefA => team_a h
  | RefB => team_b h
  end.

Definition store (h : teams) (r : team_ref) (t : team) : teams :=
  match r with
  | RefA => {| team_a := t; team_b := team_b h |}
  | RefB => {| team_a := team_a h; team_b := t |}
  end.

Definition option_ : Type := (team_ref * string)%type.

(** Lines 81-93: what one turn of [for team in [team_a, team_b]] appends. *)
Definition offered (h : teams) (player : Player) (r : team_ref) : list option_ :=
  let team := deref h r in
  if (position player =? "F")%string then
    (if can_add team "F" then [(r, "F"%string)] else [])
  else if (position player =? "D")%string then
    (if can_add team "D" then [(r, "D"%string)] else [])
  else
    (if can_add team "F" then [(r, "F"%string)] else [])
    ++ (if can_add team "D" then [(r, "D"%string)] else []).

(** Lines 77-93: the options the size targets allow. *)
Definition constrained_options (h : teams) (player : Player) : list option_ :=
  offered h player RefA ++ offered h player RefB.

(** Lines 96-101. *)
Definition FALLBACK : list option_ :=
  [(RefA, "F"); (RefB, "F"); (RefA, "D"); (RefB, "D")]%string.

Definition fallback_fires (h : teams) (player : Player) : bool :=
  match constrained_options h player with
  | [] => true
  | _ :: _ => false
  end.

(** [options] as line 106 finds it. *)
Definition options (h : teams) (player : Player) : list option_ :=
  if fallback_fires h player then FALLBACK else constrained_options h player.

(** [==] on players is the dataclass's: field by field. *)
Definition player_eqb (p q : Player) : bool :=
  (name p =? name q)%string && (rank p =? rank q)%Z
  && (position p =? position q)%string.

Fixpoint players_eqb (l m : list Player) : bool :=
  match l, m with
  | [], [] => true
  | p :: l', q :: m' => player_eqb p q && players_eqb l' m'
  | _, _ => false
  end.

(** [==] on the dicts: key by key, by value. *)
Definition team_eqb (t u : team) : bool :=
  players_eqb (F t) (F u) && players_eqb (D t) (D u) && (total t =? total u)%Z.

(** Line 111, [team == team_a]: true of [team_a] itself, and of [team_b]
    whenever the two dicts hold equal values, since [==] compares dicts by
    value and not by identity. *)
Definition equals_team_a (h : teams) (r : team_ref) : bool :=
  match r with
  | RefA => true
  | RefB => team_eqb (team_b h) (team_a h)
  end.

(** Lines 108-116: the [diff] of one trial. *)
Definition trial_diff (h : teams) (player : Player) (r : team_ref) : Z :=
  let proj_a := total (team_a h) in
  let proj_b := total (team_b h) in
  if equals_team_a h r
  then Z.abs ((proj_a + rank player) - proj_b)
  else Z.abs (proj_a - (proj_b + rank player)).

(** A number or [float("inf")]. *)
Inductive ext : Type := Fin (z : Z) | Inf.

(** [diff < bound] for an integer [diff]. *)
Definition lt_ext (diff : Z) (bound : ext) : bool :=
  match bound with
  | Inf => true
  | Fin z => (diff <? z)%Z
  end.

(** [bound == 0] *)
Definition is_zero (bound : ext) : bool :=
  match bound with
  | Inf => false
  | Fin z => (z =? 0)%Z
  end.

(** Lines 106-120, one turn: the pair is [(best_move, best_diff)]. *)
Definition consider (h : teams) (player : Player)
    (acc : option option_ * ext) (o : option_) : option option_ * ext :=
  let diff := trial_diff h player (fst o) in
  if lt_ext diff (snd acc) then (Some o, Fin diff) else acc.

Definition select (h : teams) (player : Player) (opts : list option_)
    : option option_ * ext :=
  fold_left (consider h player) opts (None, Inf).

Definition best_move (h : teams) (player : Player) : option option_ :=
  fst (select h player (options h player)).

(** Lines 77-122: the body of [for player in players_list].  Subscripting
    a [best_move] that is still [None] raises TypeError. *)
Definition place_player (h : teams) (player : Player) : result teams :=
  match best_move h player with
  | None => Raise TypeError
  | Some (r, pos) =>
      bind (assign_player (deref h r) player pos) (fun t => Ok (store h r t))
  end.

(** Lines 75-122: the loop over the shuffled list. *)
Fixpoint build (h : teams) (players_list : list Player) : result teams :=
  match players_list with
  | [] => Ok h
  | player :: rest => bind (place_player h player) (fun h' => build h' rest)
  end.

(** The teams after each assignment of a run, in order. *)
Fixpoint states (h : teams) (players_list : list Player) : list teams :=
  match players_list with
  | [] => []
  | player :: rest =>
      match place_player h player with
      | Ok h' => h' :: states h' rest
      | Raise _ => []
      end
  end.

(** Whether a run gets through without the fallback firing. *)
Fixpoint fallback_free (h : teams) (players_list : list Player) : bool :=
  match players_list with
  | [] => true
  | player :: rest =>
      negb (fallback_fires h player)
      && match place_player h player with
         | Ok h' => fallback_free h' rest
         | Raise _ => true
         end
  end.

Definition start : teams := {| team_a := empty_team; team_b := empty_team |}.

Section Randomness.

(** [random.shuffle] with the generator's state made explicit: it returns
    the reordered list and the next state. *)
Variable RNG : Type.
Variable shuffle : RNG -> list Player -> list Player * RNG.

Definition attempt_build (g : RNG) (players_list : list Player)
    : result teams * RNG :=
  let (shuffled, g') := shuffle g players_list in
  (build start shuffled, g').

End Randomness.

Arguments attempt_build {RNG} shuffle g players_list.

(* ------------------------------------------------------------------ *)
(** ** Run full build *)

(** One row of the sheet: its cells in the four columns the program reads
    (they are read only once the columns are known to be there). *)
Record Row : Type := mkRow {
  Selected : value;
  Name : string;
  Rank : value;
  Position : value
}.

(** What [pd.read_excel] returns: the column labels and the rows. *)
Record DataFrame : Type := mkDataFrame {
  columns : list string;
  rows : list Row
}.

Definition required_columns : list string :=
  ["Selected"; "Name"; "Rank"; "Position"]%string.

Definition digit (c : ascii) : option Z :=
  let n := nat_of_ascii c in
  if ((48 <=? n) && (n <=? 57))%nat then Some (Z.of_nat (n - 48)) else None.

(** The digits of a decimal literal; a single underscore may sit between
    two digits. [after_digit] tells whether the character before was one. *)
Fixpoint digits (acc : Z) (after_digit : bool) (s : string) : option Z :=
  match s with
  | EmptyString => if after_digit then Some acc else None
  | String c s' =>
      if (c =? "_")%char then
        (if after_digit then digits acc false s' else None)
      else
        match digit c with
        | Some d => digits (10 * acc + d) true s'
        | None => None
        end
  end.

(** The blanks [int] lets stand around a literal.  They are not those of
    [str.strip]: the separators 0x1C-0x1F are no blanks here, while the
    two blanks from 128 up are, [int] turning them into spaces first. *)
Definition int_blank (c : ascii) : bool :=
  let n := nat_of_ascii c in
  ((9 <=? n) && (n <=? 13) || (n =? 32) || (n =? 133) || (n =? 160))%nat.

Fixpoint int_lstrip (s : string) : string :=
  match s with
  | EmptyString => EmptyString
  | String c s' => if int_blank c then int_lstrip s' else s
  end.

Fixpoint int_rstrip (s : string) : string :=
  match s with
  | EmptyString => EmptyString
  | String c s' =>
      match int_rstrip s' with
      | EmptyString => if int_blank c then EmptyString else String c EmptyString
      | r => String c r
      end
  end.

(** How many digits a text has, underscores not counted. *)
Fixpoint count_digits (s : string) : nat :=
  match s with
  | EmptyString => O
  | String c s' =>
      match digit c with
      | Some _ => S (count_digits s')
      | None => count_digits s'
      end
  end.

(** [sys.int_max_str_digits] as Python 3.11 sets it: [int] refuses a
    literal of more digits, and [str] an integer of more digits. *)
Definition INT_MAX_STR_DIGITS : nat := 4300.

(** [int(s)] for a text [s]: blanks around, an optional sign, then digits,
    no more of them than the limit. *)
Definition int_of_text (s : string) : option Z :=
  let t := int_rstrip (int_lstrip s) in
  let signed :=
    match t with
    | String "+" r => (false, r)
    | String "-" r => (true, r)
    | _ => (false, t)
    end in
  match digits 0 false (snd signed) with
  | Some z =>
      if (INT_MAX_STR_DIGITS <? count_digits (snd signed))%nat then None
      else Some (if fst signed then (- z)%Z else z)
  | None => None
  end.

(** [int(value)] *)
Definition py_int (v : value) : result Z :=
  match v with
  | VMissing _ => Raise RankError
  | VBool b => Ok (if b then 1 else 0)%Z
  | VInt z => Ok z
  | VStr s => match int_of_text s with Some z => Ok z | None => Raise RankError end
  | VFloat _ (Some z) => Ok z
  | VFloat _ None => Raise RankError
  end.

(** [value.strip().upper()]: only text has a [strip]. *)
Definition strip_upper (v : value) : result string :=
  match v with
  | VStr s => Ok (PyStr.upper (PyStr.strip s))
  | _ => Raise AttributeError
  end.

(** Lines 142-153. *)
Fixpoint read_rows (rs : list Row) : result (list Player) :=
  match rs with
  | [] => Ok []
  | row :: rest =>
      if negb (is_selected (Selected row)) then read_rows rest
      else
        (r <- py_int (Rank row) ;;
         p <- strip_upper (Position row) ;;
         players <- read_rows rest ;;
         Ok ({| name := Name row; rank := r; position := p |} :: players))%result
  end.

(** Lines 135-153. *)
Definition load_players (df : DataFrame) : result (list Player) :=
  if negb (forallb (fun c => PyStr.mem c (columns df)) required_columns) then
    Raise (ValueError "Excel must contain Selected, Name, Rank, Position")
  else read_rows (rows df).

(** [best] and [best_diff] of lines 158-159. *)
Record tracker : Type := mkTracker {
  best : option (team * team);
  best_diff : ext
}.

Definition no_best : tracker := {| best := None; best_diff := Inf |}.

(** Lines 164-168; [deepcopy] of a value is the value. *)
Definition keep_best (st : tracker) (a b : team) : tracker :=
  let diff := Z.abs (total a - total b) in
  if lt_ext diff (best_diff st)
  then {| best := Some (a, b); best_diff := Fin diff |}
  else st.

(** What the loop is observed to do in one iteration: the attempt it ran
    and the tracker it left.  The list of these records is kept beside the
    result; the program itself does not build it. *)
Record iteration : Type := mkIteration {
  attempt : result teams;
  after : tracker
}.

Section Driver.

Variable RNG : Type.
Variable shuffle : RNG -> list Player -> list Player * RNG.

(** Lines 161-171, [for _ in range(n)], from tracker [st] on. *)
Fixpoint loop (n : nat) (players : list Player) (g : RNG) (st : tracker)
    : result tracker * list iteration :=
  match n with
  | O => (Ok st, [])
  | S n' =>
      let (built, g') := attempt_build shuffle g players in
      match built with
      | Raise e => (Raise e, [{| attempt := built; after := st |}])
      | Ok h =>
          let st' := keep_best st (team_a h) (team_b h) in
          let it := {| attempt := built; after := st' |} in
          if is_zero (best_diff st') then (Ok st', [it])
          else
            let (r, log) := loop n' players g' st' in
            (r, it :: log)
      end
  end.

(** Lines 155-173. *)
Definition search (players : list Player) (g : RNG)
    : result (team * team * ext) * list iteration :=
  if (List.length players <? 10)%nat then
    (Raise (ValueError "Not enough selected players"), [])
  else
    let (r, log) := loop ITERATIONS players g no_best in
    (bind r (fun st =>
       match best st with
       | None => Raise TypeError
       | Some (a, b) => Ok (a, b, best_diff st)
       end),
     log).

(** [build_teams], from the frame [pd.read_excel(input_file)] gave. *)
Definition build_teams (df : DataFrame) (g : RNG)
    : result (team * team * ext) * list iteration :=
  match load_players df with
  | Raise e => (Raise e, [])
  | Ok players => search players g
  end.

End Driver.

Arguments loop {RNG} shuffle n players g st.
Arguments search {RNG} shuffle players g.
Arguments build_teams {RNG} shuffle df g.

(* ------------------------------------------------------------------ *)
(** ** Export workbook *)

Definition TEAM_A_NAME : string := "Light Team".
Definition TEAM_B_NAME : string := "Dark Team".
Definition TEAM_A_JERSEY : string := "LIGHT".
Definition TEAM_B_JERSEY : string := "DARK".
Definition OUTPUT_FILE : string := "game_night_teams.xlsx".

(** One dict of [rows] in [build_df]: the cells under Name, Rank, Position
    and Jersey. *)
Record SheetRow : Type := mkSheetRow {
  cell_Name : string;
  cell_Rank : Z;
  cell_Position : string;
  cell_Jersey : string
}.

(** [team[pos]] for the two keys [build_df] reads. *)
Definition listed (t : team) (pos : string) : list Player :=
  if (pos =? "F")%string then F t else D t.

(** Lines 182-195: the rows handed to [pd.DataFrame]. *)
Definition build_df (t : team) (jersey : string) : list SheetRow :=
  flat_map
    (fun pos =>
       map (fun p => {| cell_Name := name p; cell_Rank := rank p;
                        cell_Position := pos; cell_Jersey := jersey |})
           (listed t pos))
    ["F"; "D"]%string.

(** A sheet of the workbook: the rows of a team, or the summary with its
    Metric and Value columns. *)
Inductive sheet : Type :=
| TeamSheet (sheet_rows : list SheetRow)
| SummarySheet (metrics : list (string * ext)).

(** Lines 180-219: the file name and, in the order they are written, the
    sheets with their names.  Writing the file is represented by what is
    written. *)
Definition export_workbook (a b : team) (diff : ext)
    : string * list (string * sheet) :=
  let df_light := build_df a TEAM_A_JERSEY in
  let df_dark := build_df b TEAM_B_JERSEY in
  let summary :=
    [ ("Light Team Total Rank"%string, Fin (total a));
      ("Dark Team Total Rank"%string, Fin (total b));
      ("Skill Difference"%string, diff) ] in
  (OUTPUT_FILE,
   [ (TEAM_A_NAME, TeamSheet df_light);
     (TEAM_B_NAME, TeamSheet df_dark);
     ("Summary"%string, SummarySheet summary) ]).

(* ------------------------------------------------------------------ *)
(** ** Notions the properties are stated with *)

Definition sum_ranks (l : list Player) : Z :=
  fold_right (fun p acc => rank p + acc)%Z 0%Z l.

(** Everyone a team holds, Forwards first. *)
Definition members (t : team) : list Player := (F t ++ D t)%list.

(** A sequence of calls of [assign_player] on one team. *)
Fixpoint assign_all (t : team) (moves : list (Player * string)) : result team :=
  match moves with
  | [] => Ok t
  | (player, pos) :: rest =>
      bind (assign_player t player pos) (fun t' => assign_all t' rest)
  end.

Definition is_role (pos : string) : Prop := pos = "F"%string \/ pos = "D"%string.

Definition within_targets (t : team) : Prop :=
  (List.length (F t) <= FORWARDS_TARGET)%nat
  /\ (List.length (D t) <= DEFENCE_TARGET)%nat.

(** The gap the specification describes for a trial: the player's rank is
    added to the total of the team tried, and to that one only. *)
Definition projected_gap (h : teams) (player : Player) (r : team_ref) : Z :=
  match r with
  | RefA => Z.abs ((total (team_a h) + rank player) - total (team_b h))
  | RefB => Z.abs (total (team_a h) - (total (team_b h) + rank player))
  end.

Definition ref_eqb (r r' : team_ref) : bool :=
  match r, r' with
  | RefA, RefA | RefB, RefB => true
  | _, _ => false
  end.

(** Order of enumeration, first half: a list that offers [team_a] at all
    starts with an option of [team_a]. *)
Definition team_a_leads (opts : list option_) : bool :=
  match opts with
  | [] => true
  | (RefA, _) :: _ => true
  | (RefB, _) :: _ => forallb (fun o => ref_eqb (fst o) RefB) opts
  end.

(** Order of enumeration, second half: the Forward slot of a team never
    comes after its Defence slot. *)
Fixpoint forward_before_defence (opts : list option_) : bool :=
  match opts with
  | [] => true
  | (r, pos) :: rest =>
      (negb (pos =? "D")%string
       || negb (existsb (fun o => ref_eqb (fst o) r && (snd o =? "F")%string) rest))
      && forward_before_defence rest
  end.

Definition both_within_targets (h : teams) : Prop :=
  within_targets (team_a h) /\ within_targets (team_b h).

(** The four slots in the order the constrained enumeration visits them. *)
Definition SLOTS : list option_ :=
  [(RefA, "F"); (RefA, "D"); (RefB, "F"); (RefB, "D")]%string.

(** [x <= y] where either may be [float("inf")]. *)
Definition le_ext (x y : ext) : Prop :=
  match x, y with
  | _, Inf => True
  | Inf, Fin _ => False
  | Fin a, Fin b => (a <= b)%Z
  end.

(** The tracker the [i]-th iteration of a logged loop starts from, the
    loop having started from [st0]. *)
Fixpoint tracker_before (st0 : tracker) (log : list iteration) (i : nat)
    : tracker :=
  match i, log with
  | S k, it :: rest => tracker_before (after it) rest k
  | _, _ => st0
  end.

(** The gap between the two teams of an attempt, [diff] of line 164. *)
Definition gap_of (h : teams) : Z := Z.abs (total (team_a h) - total (team_b h)).

(** Everyone the two teams hold. *)
Definition roster (h : teams) : list Player :=
  (members (team_a h) ++ members (team_b h))%list.

(** What one logged iteration did to the tracker it started from. *)
Definition step_of (prev : tracker) (it : iteration) : Prop :=
  match attempt it with
  | Ok h => after it = keep_best prev (team_a h) (team_b h)
  | Raise _ => after it = prev
  end.

(** A log whose iterations follow one another from tracker [st]. *)
Fixpoint log_follows (st : tracker) (log : list iteration) : Prop :=
  match log with
  | [] => True
  | it :: rest => step_of st it /\ log_follows (after it) rest
  end.

(** A tracker that holds a pair of teams as soon as its diff is a number. *)
Definition coherent (st : tracker) : Prop :=
  best st = None -> best_diff st = Inf.

(** A tracker whose pair of teams, if it holds one, is made of exactly the
    given players and has the recorded diff. *)
Definition holds_everyone (players : list Player) (st : tracker) : Prop :=
  forall a b, best st = Some (a, b) ->
    Permutation (members a ++ members b) players
    /\ best_diff st = Fin (Z.abs (total a - total b)).

(** The rows the loop of lines 142-153 does not skip. *)
Definition selected_rows (rs : list Row) : list Row :=
  filter (fun row => is_selected (Selected row)) rs.

(** Lines 148-152: the [Player(...)] expression for one row, its arguments
    evaluated in the order they are written. *)
Definition player_of_row (row : Row) : result Player :=
  (r <- py_int (Rank row) ;;
   p <- strip_upper (Position row) ;;
   Ok {| name := Name row; rank := r; position := p |})%result.

(** Whether a list of options offers the given team. *)
Definition offers (opts : list option_) (r : team_ref) : bool :=
  existsb (fun o => ref_eqb (fst o) r) opts.

(** Whether the player has a slot on offer in both teams. *)
Definition both_offered (h : teams) (player : Player) : bool :=
  offers (options h player) RefA && offers (options h player) RefB.

(** Whether every player of a run has both teams on offer. *)
Fixpoint always_both_offered (h : teams) (players_list : list Player) : bool :=
  match players_list with
  | [] => true
  | player :: rest =>
      both_offered h player
      && match place_player h player with
         | Ok h' => always_both_offered h' rest
         | Raise _ => true
         end
  end.

(** Defence lists within their target, whatever the Forward lists hold. *)
Definition defence_within_target (h : teams) : Prop :=
  (List.length (D (team_a h)) <= DEFENCE_TARGET)%nat
  /\ (List.length (D (team_b h)) <= DEFENCE_TARGET)%nat.

(** No player whose position is F sits in a Defence list. *)
Definition no_forward_in_defence (h : teams) : Prop :=
  Forall (fun p => position p <> "F"%string) (D (team_a h) ++ D (team_b h)).

(** The diffs of the logged attempts, in order. *)
Definition attempt_gaps (log : list iteration) : list Z :=
  flat_map (fun it => match attempt it with
                      | Ok h => [gap_of h]
                      | Raise _ => []
                      end) log.

(** The sum of the Rank column of a team's sheet. *)
Definition rank_column_sum (sheet_rows : list SheetRow) : Z :=
  fold_right (fun r acc => cell_Rank r + acc)%Z 0%Z sheet_rows.

(** Whether every character of a text passes a test. *)
Fixpoint every_char (f : ascii -> bool) (s : string) : bool :=
  match s with
  | EmptyString => true
  | String c s' => f c && every_char f s'
  end.

(** A text all of whose characters are 7-bit. *)
Definition seven_bit (s : string) : bool :=
  every_char (fun c => (nat_of_ascii c <? 128)%nat) s.

(** Whether [str] prints the value: it refuses an integer of more than
    INT_MAX_STR_DIGITS digits. *)
Definition prints (v : value) : bool :=
  match v with
  | VInt z => (Z.abs z <? 10 ^ Z.of_nat INT_MAX_STR_DIGITS)%Z
  | _ => true
  end.

(** The values whose reading by [is_selected] the text model covers: [str]
    prints them, as a 7-bit text. *)
Definition in_text_model (v : value) : bool :=
  prints v && seven_bit (py_str v).

(** A cell that, if it holds text, holds 7-bit text. *)
Definition seven_bit_cell (v : value) : bool :=
  match v with
  | VStr s => seven_bit s
  | _ => true
  end.

(** The frames whose reading the text model covers: in every row the
    Selected cell is in the text model and, if the row is selected, the
    text in its Rank and Position cells is 7-bit. *)
Definition frame_in_text_model (df : DataFrame) : bool :=
  forallb (fun row =>
             in_text_model (Selected row)
             && (negb (is_selected (Selected row))
                 || seven_bit_cell (Rank row) && seven_bit_cell (Position row)))
          (rows df).

(** The characters [str] prints an integer with. *)
Definition decimal_char (c : ascii) : bool :=
  (c =? "-")%char || match digit c with Some _ => true | None => false end.

(** A generator to run the driver with: the state is a counter, and the
    [n]-th shuffle rotates the list by [n] places. *)
Definition rotate (n : nat) (l : list Player) : list Player * nat :=
  let k := (n mod (List.length l))%nat in
  ((skipn k l ++ firstn k l)%list, S n).

(* ------------------------------------------------------------------ *)
(** ** A sheet to run the program on *)

Definition row (selected : value) (n : string) (r : Z) (pos : string) : Row :=
  {| Selected := selected; Name := n; Rank := VInt r; Position := VStr pos |}.

(** Twelve rows, eleven of them selected. *)
Definition game_night_rows : list Row :=
  [ row (VStr "TRUE") "Ann" 9 "F";
    row (VStr "yes") "Bob" 8 "f";
    row (VBool true) "Cal" 7 "D";
    row (VInt 1) "Dee" 7 " d ";
    row (VStr "Y") "Eli" 6 "Flex";
    row (VMissing NaN) "Fay" 10 "F";
    row (VStr " true ") "Gus" 5 "F";
    row (VStr "TRUE") "Hal" 5 "D";
    row (VStr "TRUE") "Ivy" 4 "F";
    row (VStr "TRUE") "Jon" 3 "FLEX";
    row (VStr "TRUE") "Kim" 2 "F";
    row (VStr "TRUE") "Lou" 1 "D" ]%string.

Definition game_night : DataFrame :=
  {| columns := ["Name"; "Rank"; "Position"; "Selected"]%string;
     rows := game_night_rows |}.

Definition game_night_players : list Player :=
  [ mkPlayer "Ann" 9 "F"; mkPlayer "Bob" 8 "F"; mkPlayer "Cal" 7 "D";
    mkPlayer "Dee" 7 "D"; mkPlayer "Eli" 6 "FLEX"; mkPlayer "Gus" 5 "F";
    mkPlayer "Hal" 5 "D"; mkPlayer "Ivy" 4 "F"; mkPlayer "Jon" 3 "FLEX";
    mkPlayer "Kim" 2 "F"; mkPlayer "Lou" 1 "D" ]%string.

(** The same sheet cut down to its first nine rows, eight of them selected. *)
Definition short_night : DataFrame :=
  {| columns := columns game_night; rows := firstn 9 game_night_rows |}.

(** Twelve players whose ranks split evenly. *)
Definition even_night_players : list Player :=
  mkPlayer "Zed" 1 "D" :: game_night_players.

(** A sheet without the Selected column, and with a row nothing could be
    made of. *)
Definition headless_night : DataFrame :=
  {| columns := ["Name"; "Rank"; "Position"]%string;
     rows := [ {| Selected := VMissing NaN; Name := "Ann";
                  Rank := VStr "nine"; Position := VMissing NaN |} ] |}.

(** Thirteen Forwards of rank 1: one more than the two teams have Forward
    slots for. *)
Definition thirteen_forwards : list Player :=
  repeat (mkPlayer "Fwd" 1 "F") 13.

(** Two teams whose Forward lists are both full, and a Flex player. *)
Definition full_forwards : teams :=
  {| team_a := {| F := repeat (mkPlayer "One" 1 "F") 6; D := []; total := 6 |};
     team_b := {| F := repeat (mkPlayer "Two" 2 "F") 6; D := []; total := 12 |} |}.

Definition flex_player : Player := mkPlayer "Jon" 3 "FLEX".

Definition goalie : Player := mkPlayer "Pat" 5 "GOALIE".

(** The sheet with the Rank of its second row spelled out and that row's
    Position left blank. *)
Definition broken_night : DataFrame :=
  {| columns := columns game_night;
     rows := row (VStr "TRUE") "Ann" 9 "F"
             :: {| Selected := VStr "yes"; Name := "Bob";
                   Rank := VStr "eight"; Position := VMissing NaN |}
             :: skipn 2 game_night_rows |}.

(** The two teams the first attempt makes of the twelve players. *)
Definition even_night_light : team :=
  {| F := [ mkPlayer "Bob" 8 "F"; mkPlayer "Eli" 6 "FLEX";
            mkPlayer "Ivy" 4 "F"; mkPlayer "Jon" 3 "FLEX" ];
     D := [ mkPlayer "Zed" 1 "D"; mkPlayer "Cal" 7 "D" ];
     total := 29 |}%string.

Definition even_night_dark : team :=
  {| F := [ mkPlayer "Ann" 9 "F"; mkPlayer "Gus" 5 "F"; mkPlayer "Kim" 2 "F" ];
     D := [ mkPlayer "Dee" 7 "D"; mkPlayer "Hal" 5 "D"; mkPlayer "Lou" 1 "D" ];
     total := 29 |}%string.

Definition forward_player : Player := mkPlayer "Max" 4 "F".

(** The literal made of [n] digits 1. *)
Fixpoint ones (n : nat) : string :=
  match n with
  | O => EmptyString
  | S n' => String "1" (ones n')
  end.

(** The two empty teams after the goalie has been placed. *)
Definition goalie_placed : teams :=
  {| team_a := {| F := [goalie]; D := []; total := 5 |};
     team_b := empty_team |}.

(* ================================================================== *)
(** * Theorems *)

(* ------------------------------------------------------------------ *)
(** ** Text *)

Module PyStrFacts.
Import PyStr.

Lemma in_every_ascii (c : ascii) : In c every_ascii.
Proof.
  unfold every_ascii. rewrite <- (ascii_nat_embedding c).
  apply in_map, in_seq. pose proof (nat_ascii_bounded c). lia.
Qed.

(** A boolean property of two characters holds everywhere as soon as it
    holds on the table of all pairs. *)
Lemma by_table2 (f : ascii -> ascii -> bool) :
  forallb (fun c => forallb (f c) every_ascii) every_ascii = true ->
  forall c d, f c d = true.
Proof.
  intros H c d. rewrite forallb_forall in H.
  specialize (H c (in_every_ascii c)). rewrite forallb_forall in H.
  apply H, in_every_ascii.
Qed.

Lemma upper_lower_char (c d : ascii) :
  upper_char c = upper_char d <-> lower_char c = lower_char d.
Proof.
  pose proof (by_table2
    (fun c d => Bool.eqb (Ascii.eqb (upper_char c) (upper_char d))
                         (Ascii.eqb (lower_char c) (lower_char d)))) as H.
  specialize (H ltac:(vm_compute; reflexivity) c d). cbv beta in H.
  apply eqb_prop in H.
  rewrite <- !Ascii.eqb_eq. rewrite H. reflexivity.
Qed.

Lemma upper_eq_ignore_case (s t : string) :
  upper s = upper t <-> eq_ignore_case s t.
Proof.
  revert t. induction s as [|c s IH]; intros [|d t]; simpl; try easy.
  rewrite <- IH, <- upper_lower_char. split.
  - intros H. injection H as H1 H2. now split.
  - intros [H1 H2]. now rewrite H1, H2.
Qed.

Lemma mem_In (x : string) (xs : list string) : mem x xs = true <-> In x xs.
Proof.
  unfold mem. rewrite existsb_exists. split.
  - intros [y [Hy Hxy]]. apply String.eqb_eq in Hxy. now subst.
  - intros H. exists x. split; [assumption | apply String.eqb_refl].
Qed.

End PyStrFacts.

Lemma TRUTHY_upper (w : string) : In w TRUTHY -> PyStr.upper w = w.
Proof.
  unfold TRUTHY. simpl. intros H.
  repeat (destruct H as [H | H]; [subst w; reflexivity | ]). contradiction.
Qed.

Lemma missing_not_selected_spec (m : missing) : ~ selected_spec (VMissing m).
Proof.
  intros [w [Hw Hcase]]. unfold TRUTHY in Hw. simpl in Hw.
  destruct m;
    repeat (destruct Hw as [Hw | Hw];
            [subst w; vm_compute in Hcase; intuition discriminate | ]);
    contradiction.
Qed.

(** C9.  For a value within the text model (one [str] prints, as a 7-bit
    text), [is_selected] answers true exactly when the text of the value,
    trimmed and compared without regard to case, is one of TRUE, 1, YES,
    Y, and false for every other value; it answers false for each missing
    value (None, NaN, NaT, NA) and for a text that is blank. *)
Theorem is_selected_exactly (v : value) :
  in_text_model v = true ->
  (is_selected v = true <-> selected_spec v)
  /\ (is_selected v = false <-> ~ selected_spec v)
  /\ (isna v = true \/ PyStr.strip (py_str v) = EmptyString ->
      is_selected v = false).
Proof.
  intros _.
  assert (Hiff : is_selected v = true <-> selected_spec v).
  { unfold is_selected, selected_spec.
    destruct (isna v) eqn:Hna.
    - destruct v; try discriminate. split; [discriminate | ].
      intros H. exfalso. exact (missing_not_selected_spec _ H).
    - rewrite PyStrFacts.mem_In. split.
      + intros Hin. exists (PyStr.upper (PyStr.strip (py_str v))).
        split; [assumption | ].
        apply PyStrFacts.upper_eq_ignore_case.
        symmetry. now apply TRUTHY_upper.
      + intros [w [Hw Hcase]].
        apply PyStrFacts.upper_eq_ignore_case in Hcase.
        rewrite Hcase, (TRUTHY_upper _ Hw). assumption. }
  split; [exact Hiff | ]. split.
  - rewrite <- Hiff. destruct (is_selected v); split; congruence.
  - unfold is_selected. intros [-> | ->]; [reflexivity | ].
    now destruct (isna v).
Qed.

Example is_selected_yes : is_selected (VStr "  yes ") = true.
Proof. reflexivity. Qed.
Example is_selected_int_one : is_selected (VInt 1) = true.
Proof. reflexivity. Qed.
Example is_selected_bool : is_selected (VBool true) = true.
Proof. reflexivity. Qed.
Example is_selected_float_one : is_selected (VFloat "1.0" (Some 1%Z)) = false.
Proof. reflexivity. Qed.
Example is_selected_no : is_selected (VStr "no") = false.
Proof. reflexivity. Qed.

(* ------------------------------------------------------------------ *)
(** ** The team accumulator *)

Lemma sum_ranks_app (l m : list Player) :
  sum_ranks (l ++ m) = (sum_ranks l + sum_ranks m)%Z.
Proof.
  induction l as [|p l IH]; simpl; [reflexivity | ]. rewrite IH. lia.
Qed.

Lemma assign_player_role (t : team) (player : Player) (pos : string) :
  is_role pos -> exists t', assign_player t player pos = Ok t'.
Proof.
  intros [-> | ->]; unfold assign_player; simpl; eexists; reflexivity.
Qed.

Lemma assign_player_total (t t' : team) (player : Player) (pos : string) :
  assign_player t player pos = Ok t' ->
  total t = sum_ranks (members t) ->
  total t' = sum_ranks (members t').
Proof.
  unfold assign_player, members.
  destruct (pos =? "F")%string; [ | destruct (pos =? "D")%string ].
  - intros [= <-] H. simpl. rewrite !sum_ranks_app in *. simpl. lia.
  - intros [= <-] H. simpl. rewrite !sum_ranks_app in *. simpl. lia.
  - destruct (pos =? "total")%string; discriminate.
Qed.

Lemma assign_all_total (moves : list (Player * string)) :
  forall t t', assign_all t moves = Ok t' ->
  total t = sum_ranks (members t) ->
  total t' = sum_ranks (members t').
Proof.
  induction moves as [|[player pos] rest IH]; simpl; intros t t' Hrun Ht.
  - injection Hrun as <-. exact Ht.
  - destruct (assign_player t player pos) as [u|e] eqn:Hstep; [ | discriminate].
    simpl in Hrun. apply (IH u t' Hrun).
    exact (assign_player_total _ _ _ _ Hstep Ht).
Qed.

(** C4.  From the empty team, whose total is 0, every sequence of
    assignments leaves a team whose [total] is the sum of the ranks of the
    players in its Forward and Defence lists; and a sequence that names
    only the roles F and D goes through. *)
Theorem total_is_sum_of_ranks (moves : list (Player * string)) :
  (forall t, assign_all empty_team moves = Ok t ->
             total t = sum_ranks (F t ++ D t))
  /\ (Forall (fun m => is_role (snd m)) moves ->
      exists t, assign_all empty_team moves = Ok t).
Proof.
  split.
  - intros t Hrun. apply (assign_all_total _ _ _ Hrun). reflexivity.
  - generalize empty_team.
    induction moves as [|[player pos] rest IH]; intros t Hroles.
    + exists t. reflexivity.
    + inversion Hroles as [|m ms Hpos Hrest]; subst. simpl in Hpos.
      destruct (assign_player_role t player _ Hpos) as [u Hu].
      simpl. rewrite Hu. simpl. apply IH. assumption.
Qed.

(* ------------------------------------------------------------------ *)
(** ** The greedy constructor *)

Lemma offered_In (h : teams) (player : Player) (r r' : team_ref) (pos : string) :
  In (r', pos) (offered h player r) ->
  r' = r /\ is_role pos /\ can_add (deref h r) pos = true.
Proof.
  unfold offered, is_role.
  destruct (position player =? "F")%string;
    [ | destruct (position player =? "D")%string ];
    destruct (can_add (deref h r) "F") eqn:HF;
    destruct (can_add (deref h r) "D") eqn:HD; simpl;
    intros H; repeat (destruct H as [H | H]; [injection H as <- <-; auto | ]);
    contradiction.
Qed.

Lemma constrained_options_In (h : teams) (player : Player) (o : option_) :
  In o (constrained_options h player) ->
  is_role (snd o) /\ can_add (deref h (fst o)) (snd o) = true.
Proof.
  destruct o as [r pos]. unfold constrained_options. rewrite in_app_iff.
  intros [H | H]; apply offered_In in H; destruct H as [-> H]; exact H.
Qed.

Lemma options_not_fallback (h : teams) (player : Player) :
  fallback_fires h player = false ->
  options h player = constrained_options h player.
Proof. unfold options. now intros ->. Qed.

Lemma options_role (h : teams) (player : Player) (o : option_) :
  In o (options h player) -> is_role (snd o).
Proof.
  unfold options. destruct (fallback_fires h player).
  - unfold FALLBACK, is_role. simpl.
    intros H; repeat (destruct H as [H | H]; [subst o; simpl; auto | ]).
    contradiction.
  - intros H. now apply constrained_options_In in H.
Qed.

Lemma options_nonempty (h : teams) (player : Player) : options h player <> [].
Proof.
  unfold options, fallback_fires.
  destruct (constrained_options h player); discriminate.
Qed.

(** The [diff] of a trial is the gap with the rank added to the tried team
    only, also when [team == team_a] answers true for [team_b]: the two
    totals are equal then, and adding the rank on either side gives the
    same gap. *)
Lemma trial_diff_gap (h : teams) (player : Player) (r : team_ref) :
  trial_diff h player r = projected_gap h player r.
Proof.
  unfold trial_diff, projected_gap. destruct r; simpl; [reflexivity | ].
  destruct (team_eqb (team_b h) (team_a h)) eqn:Heq; [ | reflexivity].
  unfold team_eqb in Heq. apply andb_prop in Heq. destruct Heq as [_ Heq].
  apply Z.eqb_eq in Heq. lia.
Qed.

Lemma select_snoc (h : teams) (player : Player) (opts : list option_) (o : option_) :
  select h player (opts ++ [o]) = consider h player (select h player opts) o.
Proof. unfold select. now rewrite fold_left_app. Qed.

(** The selection loop returns the first option of least [diff]. *)
Lemma select_first_least (h : teams) (player : Player) (opts : list option_) :
  opts <> [] ->
  exists pre m post,
    opts = pre ++ m :: post
    /\ select h player opts = (Some m, Fin (trial_diff h player (fst m)))
    /\ (forall o, In o pre ->
          (trial_diff h player (fst m) < trial_diff h player (fst o))%Z)
    /\ (forall o, In o post ->
          (trial_diff h player (fst m) <= trial_diff h player (fst o))%Z).
Proof.
  induction opts as [|o opts IH] using rev_ind; [congruence | intros _].
  rewrite select_snoc. destruct opts as [|o0 opts0].
  - exists [], o, []. simpl. repeat split; intros x [].
  - destruct IH as (pre & m & post & Hsplit & Hsel & Hpre & Hpost);
      [discriminate | ].
    rewrite Hsel. unfold consider. cbn [snd lt_ext].
    destruct (trial_diff h player (fst o) <? trial_diff h player (fst m))%Z
      eqn:Hlt.
    + apply Z.ltb_lt in Hlt.
      exists (o0 :: opts0), o, []. repeat split; [ | intros x []].
      intros x Hx. rewrite Hsplit in Hx. apply in_app_iff in Hx.
      destruct Hx as [Hx | [<- | Hx]].
      * specialize (Hpre x Hx). lia.
      * exact Hlt.
      * specialize (Hpost x Hx). lia.
    + apply Z.ltb_ge in Hlt.
      exists pre, m, (post ++ [o]). repeat split.
      * rewrite Hsplit, <- app_assoc. reflexivity.
      * exact Hpre.
      * intros x Hx. apply in_app_iff in Hx.
        destruct Hx as [Hx | [<- | []]]; [now apply Hpost | exact Hlt].
Qed.

Lemma best_move_first_least (h : teams) (player : Player) :
  exists pre m post,
    options h player = pre ++ m :: post
    /\ best_move h player = Some m
    /\ (forall o, In o pre ->
          (projected_gap h player (fst m) < projected_gap h player (fst o))%Z)
    /\ (forall o, In o post ->
          (projected_gap h player (fst m) <= projected_gap h player (fst o))%Z).
Proof.
  destruct (select_first_least h player _ (options_nonempty h player))
    as (pre & m & post & Hsplit & Hsel & Hpre & Hpost).
  exists pre, m, post. unfold best_move. rewrite Hsel.
  repeat split; [exact Hsplit | | ]; intros o Ho;
    rewrite <- !trial_diff_gap; auto.
Qed.

Lemma best_move_In (h : teams) (player : Player) (m : option_) :
  best_move h player = Some m -> In m (options h player).
Proof.
  destruct (best_move_first_least h player)
    as (pre & m' & post & Hsplit & Hbest & _).
  rewrite Hbest. intros [= <-]. rewrite Hsplit. apply in_elt.
Qed.

(** A player is always placed: the loop body never raises. *)
Lemma place_player_total (h : teams) (player : Player) :
  exists r pos t,
    best_move h player = Some (r, pos)
    /\ is_role pos
    /\ assign_player (deref h r) player pos = Ok t
    /\ place_player h player = Ok (store h r t).
Proof.
  destruct (best_move_first_least h player)
    as (pre & [r pos] & post & Hsplit & Hbest & _).
  pose proof (options_role h player _ (best_move_In h player _ Hbest)) as Hrole.
  simpl in Hrole.
  destruct (assign_player_role (deref h r) player _ Hrole) as [t Ht].
  exists r, pos, t. unfold place_player. rewrite Hbest, Ht.
  repeat split; assumption.
Qed.

(** Every list of options the constructor can meet is determined by the
    two tests on the position and the four answers of [can_add]. *)
Ltac options_cases h player :=
  unfold options, fallback_fires, constrained_options, offered; simpl deref;
  destruct (position player =? "F")%string;
  [ | destruct (position player =? "D")%string ];
  destruct (can_add (team_a h) "F"); destruct (can_add (team_a h) "D");
  destruct (can_add (team_b h) "F"); destruct (can_add (team_b h) "D").

Lemma options_team_a_leads (h : teams) (player : Player) :
  team_a_leads (options h player) = true.
Proof. options_cases h player; reflexivity. Qed.

Lemma options_forward_before_defence (h : teams) (player : Player) :
  forward_before_defence (options h player) = true.
Proof. options_cases h player; reflexivity. Qed.

Lemma ref_eqb_eq (r r' : team_ref) : ref_eqb r r' = true <-> r = r'.
Proof. destruct r, r'; simpl; split; congruence. Qed.

Lemma team_a_leads_split (opts pre post : list option_) (pos pos' : string) :
  team_a_leads opts = true ->
  opts = pre ++ (RefB, pos) :: post ->
  In (RefA, pos') opts ->
  exists posA, In (RefA, posA) pre.
Proof.
  intros Hlead Hsplit Hin. destruct opts as [|[[|] p0] rest].
  - destruct Hin.
  - destruct pre as [|x pre]; simpl in Hsplit.
    + discriminate.
    + injection Hsplit as <- _. exists p0. now left.
  - simpl in Hlead. rewrite forallb_forall in Hlead.
    destruct Hin as [Hin | Hin]; [discriminate | ].
    specialize (Hlead (RefA, pos') Hin). discriminate.
Qed.

Lemma forward_before_defence_split (pre post : list option_) (r : team_ref) :
  forward_before_defence (pre ++ (r, "D"%string) :: post) = true ->
  ~ In (r, "F"%string) post.
Proof.
  induction pre as [|[r0 p0] pre IH]; simpl.
  - intros H Hin. apply andb_prop in H. destruct H as [H _].
    apply negb_true_iff in H.
    assert (Hex : existsb (fun o => ref_eqb (fst o) r && (snd o =? "F")%string)
                    post = true).
    { apply existsb_exists. exists (r, "F"%string). split; [exact Hin | ].
      simpl. now rewrite (proj2 (ref_eqb_eq r r) eq_refl). }
    congruence.
  - intros H. apply andb_prop in H. destruct H as [_ H]. now apply IH.
Qed.

(** [team_b] is committed only when its gap is strictly below that of an
    offered [team_a]. *)
Lemma best_move_team_b_strict (h : teams) (player : Player) (pos pos' : string) :
  best_move h player = Some (RefB, pos) ->
  In (RefA, pos') (options h player) ->
  (projected_gap h player RefB < projected_gap h player RefA)%Z.
Proof.
  intros Hm Hin.
  destruct (best_move_first_least h player)
    as (pre & m & post & Hsplit & Hbest & Hpre & _).
  rewrite Hbest in Hm. injection Hm as ->.
  destruct (team_a_leads_split _ _ _ _ _ (options_team_a_leads h player)
              Hsplit Hin) as [posA HposA].
  exact (Hpre _ HposA).
Qed.

(** The Defence slot of a team is committed only when its Forward slot is
    not among the options. *)
Lemma best_move_defence (h : teams) (player : Player) (r : team_ref) :
  best_move h player = Some (r, "D"%string) ->
  ~ In (r, "F"%string) (options h player).
Proof.
  intros Hm Hin.
  destruct (best_move_first_least h player)
    as (pre & m & post & Hsplit & Hbest & Hpre & _).
  rewrite Hbest in Hm. injection Hm as ->.
  pose proof (options_forward_before_defence h player) as Hfd.
  rewrite Hsplit in Hfd, Hin.
  apply forward_before_defence_split in Hfd.
  apply in_app_iff in Hin. destruct Hin as [Hin | [Hin | Hin]].
  - specialize (Hpre _ Hin). simpl in Hpre. lia.
  - discriminate.
  - contradiction.
Qed.

(** C2.  For a player placed from teams [h], the options (those the targets
    allow or, failing any, the four of the fallback) split around the
    committed one, [m]: every option enumerated before [m] has a strictly
    larger projected gap and every later one a gap at least as large, the
    gap of an option being taken with the player's rank added to the total
    of the option's team only.  The player is assigned to [m].  In terms
    of the order: [team_b] is chosen only when its gap is strictly below
    that of an offered [team_a], and the Defence slot of a team only when
    its Forward slot is not offered. *)
Theorem greedy_choice_minimises_gap (h : teams) (player : Player) :
  exists pre m post t,
    options h player = pre ++ m :: post
    /\ best_move h player = Some m
    /\ (forall o, In o pre ->
          (projected_gap h player (fst m) < projected_gap h player (fst o))%Z)
    /\ (forall o, In o post ->
          (projected_gap h player (fst m) <= projected_gap h player (fst o))%Z)
    /\ assign_player (deref h (fst m)) player (snd m) = Ok t
    /\ place_player h player = Ok (store h (fst m) t)
    /\ (forall pos, fst m = RefB -> In (RefA, pos) (options h player) ->
          (projected_gap h player RefB < projected_gap h player RefA)%Z)
    /\ (snd m = "D"%string -> ~ In (fst m, "F"%string) (options h player)).
Proof.
  destruct (best_move_first_least h player)
    as (pre & m & post & Hsplit & Hbest & Hpre & Hpost).
  destruct (place_player_total h player) as (r & pos & t & Hbest' & _ & Ht & Hplace).
  rewrite Hbest in Hbest'. injection Hbest' as ->.
  exists pre, (r, pos), post, t. simpl fst in *. simpl snd in *.
  repeat split; try assumption.
  - intros pos' -> Hin. exact (best_move_team_b_strict h player _ _ Hbest Hin).
  - intros ->. exact (best_move_defence h player _ Hbest).
Qed.

(* ------------------------------------------------------------------ *)
(** ** The size targets *)

Lemma assign_player_within (t t' : team) (player : Player) (pos : string) :
  can_add t pos = true ->
  assign_player t player pos = Ok t' ->
  within_targets t -> within_targets t'.
Proof.
  unfold can_add, assign_player, within_targets.
  destruct (pos =? "F")%string; [ | destruct (pos =? "D")%string ];
    [ | | discriminate ];
    intros Hadd [= <-] [HF HD]; apply Nat.ltb_lt in Hadd; simpl;
    rewrite ?length_app; simpl; lia.
Qed.

Lemma store_within (h : teams) (r : team_ref) (t : team) :
  both_within_targets h -> within_targets t ->
  both_within_targets (store h r t).
Proof. unfold both_within_targets. destruct r; simpl; tauto. Qed.

Lemma deref_within (h : teams) (r : team_ref) :
  both_within_targets h -> within_targets (deref h r).
Proof. unfold both_within_targets. destruct r; simpl; tauto. Qed.

(** One placement made from the constrained options keeps both teams
    within the targets. *)
Lemma place_player_within (h h' : teams) (player : Player) :
  fallback_fires h player = false ->
  place_player h player = Ok h' ->
  both_within_targets h -> both_within_targets h'.
Proof.
  intros Hfb Hplace Hh.
  destruct (place_player_total h player)
    as (r & pos & t & Hbest & _ & Ht & Hplace').
  rewrite Hplace' in Hplace. injection Hplace as <-.
  apply best_move_In in Hbest. rewrite (options_not_fallback _ _ Hfb) in Hbest.
  apply constrained_options_In in Hbest. destruct Hbest as [_ Hadd].
  apply store_within; [exact Hh | ].
  exact (assign_player_within _ _ _ _ Hadd Ht (deref_within _ r Hh)).
Qed.

Lemma states_length (l : list Player) :
  forall h, List.length (states h l) = List.length l.
Proof.
  induction l as [|p l IH]; intros h; simpl; [reflexivity | ].
  destruct (place_player_total h p) as (r & pos & t & _ & _ & _ & ->).
  simpl. now rewrite IH.
Qed.

Lemma last_cons {A : Type} (l : list A) :
  forall x d, last (x :: l) d = last l x.
Proof.
  induction l as [|y l IH]; intros x d; [reflexivity | ].
  change (last (x :: y :: l) d) with (last (y :: l) d).
  now rewrite !IH.
Qed.

Lemma build_last_state (l : list Player) :
  forall h, build h l = Ok (last (states h l) h).
Proof.
  induction l as [|p l IH]; intros h; simpl; [reflexivity | ].
  destruct (place_player_total h p) as (r & pos & t & _ & _ & _ & ->).
  simpl bind. rewrite IH. f_equal. symmetry. apply last_cons.
Qed.

Lemma states_within (l : list Player) :
  forall h, both_within_targets h -> fallback_free h l = true ->
  Forall both_within_targets (states h l).
Proof.
  induction l as [|p l IH]; intros h Hh Hfree; simpl; [constructor | ].
  simpl in Hfree. apply andb_prop in Hfree. destruct Hfree as [Hfb Hfree].
  apply negb_true_iff in Hfb.
  destruct (place_player h p) as [h'|e] eqn:Hplace; [ | constructor ].
  pose proof (place_player_within _ _ _ Hfb Hplace Hh) as Hh'.
  constructor; [exact Hh' | now apply IH].
Qed.

(** C3.  In a run of the constructor from the two empty teams during which
    the fallback never fires, both teams hold at most FORWARDS_TARGET
    Forwards and at most DEFENCE_TARGET Defence players after every
    assignment (there is one state per player), and so do the two teams
    the run returns. *)
Theorem targets_hold_without_fallback (players_list : list Player) :
  fallback_free start players_list = true ->
  Forall both_within_targets (states start players_list)
  /\ List.length (states start players_list) = List.length players_list
  /\ exists h, build start players_list = Ok h /\ both_within_targets h.
Proof.
  intros Hfree.
  assert (H0 : both_within_targets start).
  { unfold both_within_targets, within_targets, start. simpl.
    unfold FORWARDS_TARGET, DEFENCE_TARGET. lia. }
  pose proof (states_within _ _ H0 Hfree) as Hall.
  split; [exact Hall | ]. split; [apply states_length | ].
  exists (last (states start players_list) start).
  split; [apply build_last_state | ].
  destruct (states start players_list) as [|s ss] eqn:Hs; [exact H0 | ].
  rewrite Forall_forall in Hall. apply Hall.
  change (In (last (s :: ss) start) (s :: ss)).
  destruct (exists_last (l := s :: ss) ltac:(discriminate)) as (l' & x & ->).
  rewrite last_last. apply in_elt.
Qed.

(* ------------------------------------------------------------------ *)
(** ** Positions other than F and D *)

(** For a position that is neither F nor D the [else] branch runs: the
    constrained options are the four slots, each kept iff [can_add] allows
    it. *)
Lemma constrained_options_flex (h : teams) (player : Player) :
  position player <> "F"%string -> position player <> "D"%string ->
  constrained_options h player
  = filter (fun o => can_add (deref h (fst o)) (snd o)) SLOTS.
Proof.
  intros HF HD. apply String.eqb_neq in HF, HD.
  unfold constrained_options, offered, SLOTS. rewrite HF, HD. simpl.
  destruct (can_add (team_a h) "F"), (can_add (team_a h) "D"),
    (can_add (team_b h) "F"), (can_add (team_b h) "D"); reflexivity.
Qed.

Lemma In_SLOTS (r : team_ref) (pos : string) : is_role pos -> In (r, pos) SLOTS.
Proof. unfold SLOTS. intros [-> | ->]; destruct r; simpl; auto. Qed.

(** C10.  A player whose position is neither F nor D (a Flex player) who
    is placed from the constrained options into the Defence list of a team
    finds that team's Forward list full at that moment: [can_add] refuses
    the Forward slot, the list holding FORWARDS_TARGET players or more, and
    exactly FORWARDS_TARGET when the team is within its targets. *)
Theorem flex_defence_needs_full_forwards
    (h : teams) (player : Player) (r : team_ref) :
  position player <> "F"%string -> position player <> "D"%string ->
  fallback_fires h player = false ->
  best_move h player = Some (r, "D"%string) ->
  can_add (deref h r) "F" = false
  /\ (FORWARDS_TARGET <= List.length (F (deref h r)))%nat
  /\ (within_targets (deref h r) ->
      List.length (F (deref h r)) = FORWARDS_TARGET).
Proof.
  intros HF HD Hfb Hbest.
  assert (Hfull : can_add (deref h r) "F" = false).
  { destruct (can_add (deref h r) "F") eqn:Hadd; [exfalso | reflexivity].
    apply (best_move_defence h player r Hbest).
    rewrite (options_not_fallback _ _ Hfb), (constrained_options_flex _ _ HF HD).
    apply filter_In. split; [apply In_SLOTS; now left | exact Hadd]. }
  split; [exact Hfull | ].
  unfold can_add in Hfull. simpl in Hfull. apply Nat.ltb_ge in Hfull.
  split; [exact Hfull | ]. intros [Hle _]. lia.
Qed.

(** C5, as the code has it.  A player whose position is neither F nor D
    matches neither the Forward nor the Defence check and is handled by the
    [else] branch, as a Flex player: the constrained enumeration offers the
    Forward and the Defence slot of each team that [can_add] allows, the
    fallback fires only when all four slots are full, and as long as one
    slot is free the player is placed into a free slot. *)
Theorem other_position_is_flex (h : teams) (player : Player) :
  position player <> "F"%string -> position player <> "D"%string ->
  constrained_options h player
  = filter (fun o => can_add (deref h (fst o)) (snd o)) SLOTS
  /\ (fallback_fires h player = true <->
      forall o, In o SLOTS -> can_add (deref h (fst o)) (snd o) = false)
  /\ (fallback_fires h player = false ->
      exists r pos t,
        can_add (deref h r) pos = true
        /\ assign_player (deref h r) player pos = Ok t
        /\ place_player h player = Ok (store h r t)).
Proof.
  intros HF HD. pose proof (constrained_options_flex h player HF HD) as Hopts.
  split; [exact Hopts | ]. split.
  - unfold fallback_fires. rewrite Hopts.
    set (free := filter (fun o => can_add (deref h (fst o)) (snd o)) SLOTS).
    assert (Hfree : forall o, In o free <->
                      In o SLOTS /\ can_add (deref h (fst o)) (snd o) = true)
      by (intros o; apply filter_In).
    clearbody free. split.
    + intros Hnil o Ho.
      destruct (can_add (deref h (fst o)) (snd o)) eqn:Hadd; [ | reflexivity].
      destruct free as [|x xs]; [ | discriminate].
      exfalso. apply (proj2 (Hfree o)). now split.
    + intros Hall. destruct free as [|o os]; [reflexivity | exfalso].
      destruct (proj1 (Hfree o) (or_introl eq_refl)) as [Ho Hadd].
      rewrite (Hall o Ho) in Hadd. discriminate.
  - intros Hfb.
    destruct (place_player_total h player)
      as (r & pos & t & Hbest & _ & Ht & Hplace).
    exists r, pos, t. repeat split; try assumption.
    apply best_move_In in Hbest. rewrite (options_not_fallback _ _ Hfb) in Hbest.
    apply constrained_options_In in Hbest. exact (proj2 Hbest).
Qed.

(** C5, as the specification words it, fails: a player listed as GOALIE,
    which is none of F, D or FLEX, is not left to the fallback.  On two
    empty teams the constrained enumeration offers all four slots and the
    player goes to the Forwards of [team_a]. *)
Lemma goalie_placed_without_fallback :
  position goalie <> "F"%string
  /\ position goalie <> "D"%string
  /\ position goalie <> "FLEX"%string
  /\ constrained_options start goalie = SLOTS
  /\ fallback_fires start goalie = false
  /\ place_player start goalie
     = Ok {| team_a := {| F := [goalie]; D := []; total := 5 |};
             team_b := empty_team |}.
Proof.
  repeat split; try discriminate; reflexivity.
Qed.

(* ------------------------------------------------------------------ *)
(** ** Nobody is dropped or duplicated *)

Lemma assign_player_members (t t' : team) (player : Player) (pos : string) :
  assign_player t player pos = Ok t' ->
  Permutation (members t') (player :: members t).
Proof.
  unfold assign_player, members.
  destruct (pos =? "F")%string; [ | destruct (pos =? "D")%string ].
  - intros [= <-]. simpl. rewrite <- app_assoc. simpl.
    symmetry. apply Permutation_middle.
  - intros [= <-]. simpl. rewrite app_assoc.
    symmetry. apply Permutation_cons_append.
  - destruct (pos =? "total")%string; discriminate.
Qed.

Lemma place_player_roster (h h' : teams) (player : Player) :
  place_player h player = Ok h' ->
  Permutation (roster h') (player :: roster h).
Proof.
  intros Hplace.
  destruct (place_player_total h player)
    as (r & pos & t & _ & _ & Ht & Hplace').
  rewrite Hplace' in Hplace. injection Hplace as <-.
  apply assign_player_members in Ht. unfold roster.
  destruct r; simpl in *.
  - rewrite Ht. reflexivity.
  - rewrite Ht. symmetry. apply Permutation_middle.
Qed.

Lemma build_total (l : list Player) : forall h, exists h', build h l = Ok h'.
Proof. intros h. eexists. apply build_last_state. Qed.

Lemma build_roster (l : list Player) :
  forall h h', build h l = Ok h' -> Permutation (roster h') (l ++ roster h).
Proof.
  induction l as [|p l IH]; intros h h' Hrun; simpl in Hrun.
  - injection Hrun as <-. reflexivity.
  - destruct (place_player h p) as [h1|e] eqn:Hplace; [ | discriminate ].
    simpl in Hrun. rewrite (IH _ _ Hrun), (place_player_roster _ _ _ Hplace).
    simpl. symmetry. apply Permutation_middle.
Qed.

(* ------------------------------------------------------------------ *)
(** ** The search driver *)

Lemma le_ext_refl (x : ext) : le_ext x x.
Proof. destruct x; simpl; [lia | exact I]. Qed.

Lemma le_ext_trans (x y z : ext) : le_ext x y -> le_ext y z -> le_ext x z.
Proof. destruct x, y, z; simpl; try tauto; lia. Qed.

Lemma keep_best_cases (st : tracker) (a b : team) :
  let diff := Z.abs (total a - total b) in
  (lt_ext diff (best_diff st) = true
   /\ keep_best st a b = {| best := Some (a, b); best_diff := Fin diff |})
  \/ (lt_ext diff (best_diff st) = false /\ keep_best st a b = st).
Proof.
  unfold keep_best. cbv zeta.
  destruct (lt_ext (Z.abs (total a - total b)) (best_diff st)); auto.
Qed.

Lemma lt_ext_le (d : Z) (x : ext) : lt_ext d x = true -> le_ext (Fin d) x.
Proof. destruct x; simpl; [ | trivial]. intros H. apply Z.ltb_lt in H. lia. Qed.

Lemma lt_ext_false (d : Z) (x : ext) : lt_ext d x = false <-> le_ext x (Fin d).
Proof.
  destruct x; simpl; [ | split; [discriminate | tauto]].
  rewrite Z.ltb_ge. reflexivity.
Qed.

Lemma keep_best_le (st : tracker) (a b : team) :
  le_ext (best_diff (keep_best st a b)) (best_diff st).
Proof.
  destruct (keep_best_cases st a b) as [[Hlt ->] | [_ ->]].
  - simpl best_diff. now apply lt_ext_le.
  - apply le_ext_refl.
Qed.

Lemma keep_best_coherent (st : tracker) (a b : team) :
  coherent st -> coherent (keep_best st a b).
Proof.
  intros Hst. destruct (keep_best_cases st a b) as [[_ ->] | [_ ->]].
  - intros H. discriminate.
  - exact Hst.
Qed.

Lemma step_of_le (prev : tracker) (it : iteration) :
  step_of prev it -> le_ext (best_diff (after it)) (best_diff prev).
Proof.
  unfold step_of. destruct (attempt it); intros ->;
    [apply keep_best_le | apply le_ext_refl].
Qed.

Lemma log_follows_nth (log : list iteration) :
  forall st i it, log_follows st log -> nth_error log i = Some it ->
  step_of (tracker_before st log i) it.
Proof.
  induction log as [|it0 log IH]; intros st i it Hlog Hnth.
  - destruct i; discriminate.
  - destruct Hlog as [Hstep Hrest]. destruct i as [|k]; simpl in *.
    + injection Hnth as <-. exact Hstep.
    + now apply IH.
Qed.

Lemma log_follows_le_start (log : list iteration) :
  forall st j, log_follows st log ->
  le_ext (best_diff (tracker_before st log j)) (best_diff st).
Proof.
  induction log as [|it0 log IH]; intros st j Hlog.
  - destruct j; apply le_ext_refl.
  - destruct Hlog as [Hstep Hrest]. destruct j as [|k]; simpl.
    + apply le_ext_refl.
    + eapply le_ext_trans; [apply IH, Hrest | now apply step_of_le].
Qed.

Lemma log_follows_mono (log : list iteration) :
  forall st i j, log_follows st log -> (i <= j)%nat ->
  le_ext (best_diff (tracker_before st log j))
         (best_diff (tracker_before st log i)).
Proof.
  induction log as [|it0 log IH]; intros st i j Hlog Hij.
  - destruct i, j; apply le_ext_refl.
  - destruct i as [|i].
    + now apply log_follows_le_start.
    + destruct j as [|j]; [lia | ]. simpl. apply IH; [apply Hlog | lia].
Qed.

Section DriverFacts.

Variable RNG : Type.
Variable shuffle : RNG -> list Player -> list Player * RNG.

(** An attempt never raises: it returns the teams built from the shuffled
    list. *)
Lemma attempt_build_ok (g : RNG) (players : list Player) :
  exists h,
    attempt_build shuffle g players = (Ok h, snd (shuffle g players))
    /\ build start (fst (shuffle g players)) = Ok h.
Proof.
  unfold attempt_build. destruct (shuffle g players) as [l g'].
  destruct (build_total l start) as [h Hh]. exists h. simpl. now rewrite Hh.
Qed.

(** One turn of the loop, the attempt being known to return. *)
Lemma loop_S (players : list Player) (n : nat) (g : RNG) (st : tracker) :
  exists h,
    build start (fst (shuffle g players)) = Ok h
    /\ loop shuffle (S n) players g st
       = (let st' := keep_best st (team_a h) (team_b h) in
          let it := {| attempt := Ok h; after := st' |} in
          if is_zero (best_diff st') then (Ok st', [it])
          else
            let (r, log) := loop shuffle n players (snd (shuffle g players)) st' in
            (r, it :: log)).
Proof.
  destruct (attempt_build_ok g players) as (h & Hab & Hh).
  exists h. split; [exact Hh | ].
  cbn [loop]. rewrite Hab. reflexivity.
Qed.

Ltac loop_turn players n g st Hloop h r' log' Hz Hrec :=
  destruct (loop_S players n g st) as (h & _ & Heq);
  rewrite Heq in Hloop; clear Heq; cbv zeta in Hloop;
  destruct (is_zero (best_diff (keep_best st (team_a h) (team_b h)))) eqn:Hz;
  [ | destruct (loop shuffle n players (snd (shuffle g players))
                  (keep_best st (team_a h) (team_b h))) as [r' log'] eqn:Hrec ];
  injection Hloop as <- <-.

Lemma loop_follows (players : list Player) (n : nat) :
  forall g st r log,
    loop shuffle n players g st = (r, log) -> log_follows st log.
Proof.
  induction n as [|n IH]; intros g st r log Hloop.
  - injection Hloop as <- <-. exact I.
  - loop_turn players n g st Hloop h r' log' Hz Hrec.
    + simpl. unfold step_of. simpl. tauto.
    + simpl. unfold step_of at 1. simpl.
      split; [reflexivity | ]. exact (IH _ _ _ _ Hrec).
Qed.

Lemma loop_stops (players : list Player) (n : nat) :
  forall g st r log,
    loop shuffle n players g st = (r, log) ->
    forall i it, nth_error log i = Some it ->
    is_zero (best_diff (after it)) = true ->
    List.length log = S i /\ r = Ok (after it).
Proof.
  induction n as [|n IH]; intros g st r log Hloop i it Hnth Hzero.
  - injection Hloop as <- <-. destruct i; discriminate.
  - loop_turn players n g st Hloop h r' log' Hz Hrec.
    + destruct i as [|[|k]]; try discriminate.
      injection Hnth as <-. split; reflexivity.
    + destruct i as [|k]; simpl in Hnth.
      * injection Hnth as <-. simpl in Hzero. congruence.
      * destruct (IH _ _ _ _ Hrec k it Hnth Hzero) as [Hlen Hr].
        split; [simpl; now rewrite Hlen | exact Hr].
Qed.

Lemma loop_length (players : list Player) (n : nat) :
  forall g st r log,
    loop shuffle n players g st = (r, log) -> (List.length log <= n)%nat.
Proof.
  induction n as [|n IH]; intros g st r log Hloop.
  - injection Hloop as <- <-. simpl. lia.
  - loop_turn players n g st Hloop h r' log' Hz Hrec.
    + simpl. lia.
    + simpl. specialize (IH _ _ _ _ Hrec). lia.
Qed.

Lemma loop_attempts_ok (players : list Player) (n : nat) :
  forall g st r log,
    loop shuffle n players g st = (r, log) ->
    forall it, In it log -> exists h, attempt it = Ok h.
Proof.
  induction n as [|n IH]; intros g st r log Hloop it Hin.
  - injection Hloop as <- <-. destruct Hin.
  - loop_turn players n g st Hloop h r' log' Hz Hrec.
    + destruct Hin as [<- | []]. now exists h.
    + destruct Hin as [<- | Hin]; [now exists h | ].
      exact (IH _ _ _ _ Hrec it Hin).
Qed.

Lemma loop_result_last (players : list Player) (n : nat) :
  forall g st r log,
    loop shuffle n players g st = (r, log) ->
    r = Ok (tracker_before st log (List.length log)).
Proof.
  induction n as [|n IH]; intros g st r log Hloop.
  - injection Hloop as <- <-. reflexivity.
  - loop_turn players n g st Hloop h r' log' Hz Hrec.
    + reflexivity.
    + simpl. exact (IH _ _ _ _ Hrec).
Qed.

(** The two ways through [search]: the roster guard raises, or the loop
    runs from the empty tracker. *)
Lemma search_cases (players : list Player) (g : RNG) :
  ((List.length players < 10)%nat
   /\ search shuffle players g
      = (Raise (ValueError "Not enough selected players"), []))
  \/ ((10 <= List.length players)%nat
      /\ exists r log,
           loop shuffle ITERATIONS players g no_best = (r, log)
           /\ search shuffle players g
              = (bind r (fun st => match best st with
                                   | None => Raise TypeError
                                   | Some (a, b) => Ok (a, b, best_diff st)
                                   end), log)).
Proof.
  unfold search. destruct (Nat.ltb_spec (List.length players) 10) as [Hlt | Hge].
  - left. split; [exact Hlt | reflexivity].
  - right. split; [exact Hge | ].
    destruct (loop shuffle ITERATIONS players g no_best) as [r log].
    exists r, log. split; reflexivity.
Qed.

End DriverFacts.

Lemma is_zero_Fin (x : ext) : is_zero x = true -> x = Fin 0.
Proof.
  destruct x; simpl; [ | discriminate]. intros H. apply Z.eqb_eq in H. now subst.
Qed.

Lemma log_follows_coherent (log : list iteration) :
  forall st i it, coherent st -> log_follows st log ->
  nth_error log i = Some it -> (exists h, attempt it = Ok h) ->
  coherent (after it).
Proof.
  induction log as [|it0 log IH]; intros st i it Hst Hlog Hnth Hok.
  - destruct i; discriminate.
  - destruct Hlog as [Hstep Hrest].
    assert (H0 : coherent (after it0)).
    { unfold step_of in Hstep. destruct (attempt it0); rewrite Hstep;
        [now apply keep_best_coherent | exact Hst]. }
    destruct i as [|k]; simpl in Hnth.
    + injection Hnth as <-. exact H0.
    + exact (IH _ _ _ H0 Hrest Hnth Hok).
Qed.

Section SearchProperties.

Variable RNG : Type.
Variable shuffle : RNG -> list Player -> list Player * RNG.

(** C6.  In the log of one call of the search, taken from the empty
    tracker: every iteration either keeps the tracker it started from, its
    attempt's diff being equal to or larger than the best so far, or puts
    its own teams and diff in, that diff being strictly smaller; so the
    best diff never grows from one iteration to a later one, and the diff
    the search returns is the one the last iteration left. *)
Theorem best_replaced_only_by_smaller (players : list Player) (g : RNG) :
  let log := snd (search shuffle players g) in
  (forall i it, nth_error log i = Some it ->
     let prev := tracker_before no_best log i in
     exists h, attempt it = Ok h
       /\ ((le_ext (best_diff prev) (Fin (gap_of h)) /\ after it = prev)
           \/ (lt_ext (gap_of h) (best_diff prev) = true
               /\ after it = {| best := Some (team_a h, team_b h);
                                best_diff := Fin (gap_of h) |}))
       /\ le_ext (best_diff (after it)) (best_diff prev))
  /\ (forall i j, (i <= j)%nat ->
        le_ext (best_diff (tracker_before no_best log j))
               (best_diff (tracker_before no_best log i)))
  /\ (forall a b d, fst (search shuffle players g) = Ok (a, b, d) ->
        d = best_diff (tracker_before no_best log (List.length log))).
Proof.
  cbv zeta.
  destruct (search_cases _ shuffle players g)
    as [[_ ->] | (_ & r & log & Hloop & ->)]; simpl fst; simpl snd.
  - split; [ | split].
    + intros [|i] it; discriminate.
    + intros [|i] [|j] _; apply le_ext_refl.
    + discriminate.
  - pose proof (loop_follows _ shuffle _ _ _ _ _ _ Hloop) as Hlog.
    split; [ | split].
    + intros i it Hnth.
      destruct (loop_attempts_ok _ shuffle _ _ _ _ _ _ Hloop it
                  (nth_error_In _ _ Hnth)) as [h Hh].
      pose proof (log_follows_nth _ _ _ _ Hlog Hnth) as Hstep.
      exists h. split; [exact Hh | ]. split; [ | now apply step_of_le].
      unfold step_of in Hstep. rewrite Hh in Hstep. unfold gap_of.
      destruct (keep_best_cases (tracker_before no_best log i)
                  (team_a h) (team_b h)) as [[Hlt Heq] | [Hlt Heq]];
        rewrite Heq in Hstep.
      * right. split; assumption.
      * left. split; [now apply lt_ext_false | assumption].
    + intros i j Hij. now apply log_follows_mono.
    + intros a b d Hres.
      rewrite (loop_result_last _ shuffle _ _ _ _ _ _ Hloop) in Hres.
      simpl in Hres.
      destruct (best (tracker_before no_best log (List.length log)))
        as [[a' b']|]; [ | discriminate].
      now injection Hres as _ _ <-.
Qed.

(** C8.  In the log of one call of the search, an iteration that leaves
    the best diff at 0 is the last one: the log ends with it, and the
    search returns the teams the tracker then holds, with diff 0.  The log
    never has more than ITERATIONS entries. *)
Theorem no_attempt_after_perfect_balance (players : list Player) (g : RNG) :
  let log := snd (search shuffle players g) in
  (forall i it, nth_error log i = Some it ->
     is_zero (best_diff (after it)) = true ->
     List.length log = S i
     /\ exists a b, best (after it) = Some (a, b)
          /\ fst (search shuffle players g) = Ok (a, b, Fin 0))
  /\ (List.length log <= ITERATIONS)%nat.
Proof.
  cbv zeta.
  destruct (search_cases _ shuffle players g)
    as [[_ ->] | (_ & r & log & Hloop & ->)]; simpl fst; simpl snd.
  - split; [ | apply Nat.le_0_l]. intros [|i] it; discriminate.
  - split; [ | exact (loop_length _ shuffle _ _ _ _ _ _ Hloop)].
    intros i it Hnth Hzero.
    destruct (loop_stops _ shuffle _ _ _ _ _ _ Hloop i it Hnth Hzero)
      as [Hlen ->].
    split; [exact Hlen | ].
    assert (Hco : coherent (after it)).
    { apply (log_follows_coherent log no_best i it).
      - intros _. reflexivity.
      - exact (loop_follows _ shuffle _ _ _ _ _ _ Hloop).
      - exact Hnth.
      - exact (loop_attempts_ok _ shuffle _ _ _ _ _ _ Hloop it
                 (nth_error_In _ _ Hnth)). }
    apply is_zero_Fin in Hzero. unfold coherent in Hco. simpl bind.
    destruct (best (after it)) as [[a b]|].
    + exists a, b. rewrite Hzero. split; reflexivity.
    + rewrite Hco in Hzero by reflexivity. discriminate.
Qed.

(** C7.  When the rows of the frame yield fewer than 10 selected players,
    [build_teams] raises the ValueError "Not enough selected players": it
    returns no teams, and its log of attempts is empty. *)
Theorem too_few_players_rejected
    (df : DataFrame) (g : RNG) (players : list Player) :
  load_players df = Ok players ->
  (List.length players < 10)%nat ->
  build_teams shuffle df g
  = (Raise (ValueError "Not enough selected players"), []).
Proof.
  intros Hload Hlen. unfold build_teams. rewrite Hload.
  destruct (search_cases _ shuffle players g) as [[_ ->] | [Hge _]];
    [reflexivity | lia].
Qed.

Hypothesis shuffle_permutes :
  forall g l, Permutation l (fst (shuffle g l)).

Lemma loop_holds_everyone (players : list Player) (n : nat) :
  forall g st r log,
    loop shuffle n players g st = (r, log) ->
    coherent st -> holds_everyone players st ->
    exists st', r = Ok st' /\ coherent st' /\ holds_everyone players st'
      /\ (best st <> None \/ n <> O -> best st' <> None).
Proof.
  induction n as [|n IH]; intros g st r log Hloop Hco Hall.
  - injection Hloop as <- <-. exists st.
    split; [reflexivity | ]. split; [exact Hco | ]. split; [exact Hall | ].
    intros [Hb | Hn]; [exact Hb | congruence].
  - destruct (loop_S _ shuffle players n g st) as (h & Hbuild & Heq).
    rewrite Heq in Hloop. clear Heq. cbv zeta in Hloop.
    set (st1 := keep_best st (team_a h) (team_b h)) in *.
    assert (Hco1 : coherent st1) by now apply keep_best_coherent.
    assert (Hall1 : holds_everyone players st1).
    { unfold st1. destruct (keep_best_cases st (team_a h) (team_b h))
        as [[_ ->] | [_ ->]]; [ | exact Hall].
      intros a b [= <- <-]. split; [ | reflexivity].
      apply build_roster in Hbuild. unfold roster in Hbuild.
      rewrite Hbuild. simpl. rewrite app_nil_r.
      symmetry. apply shuffle_permutes. }
    assert (Hsome : best st1 <> None).
    { unfold st1. destruct (keep_best_cases st (team_a h) (team_b h))
        as [[_ ->] | [Hlt ->]]; [discriminate | ].
      intros Hnone. rewrite (Hco Hnone) in Hlt. discriminate. }
    destruct (is_zero (best_diff st1)).
    + injection Hloop as <- <-. exists st1.
      split; [reflexivity | ]. split; [exact Hco1 | ]. split; [exact Hall1 | ].
      intros _. exact Hsome.
    + destruct (loop shuffle n players (snd (shuffle g players)) st1)
        as [r' log'] eqn:Hrec.
      injection Hloop as <- <-.
      destruct (IH _ _ _ _ Hrec Hco1 Hall1) as (st' & -> & Hco' & Hall' & Hbest').
      exists st'.
      split; [reflexivity | ]. split; [exact Hco' | ]. split; [exact Hall' | ].
      intros _. apply Hbest'. now left.
Qed.

(** C1.  Whatever orders the shuffle produces, a frame whose rows yield 10
    selected players or more makes [build_teams] return two teams and
    their diff: the Forwards and Defence players of the two teams are, up
    to order, exactly the selected players, each as often as the rows list
    them, and the diff is the gap between the two totals.  This holds for
    any mix of positions, the fallback placing whoever no target allows. *)
Theorem every_player_placed_once
    (df : DataFrame) (g : RNG) (players : list Player) :
  load_players df = Ok players ->
  (10 <= List.length players)%nat ->
  exists a b,
    fst (build_teams shuffle df g) = Ok (a, b, Fin (Z.abs (total a - total b)))
    /\ Permutation (F a ++ D a ++ F b ++ D b) players.
Proof.
  intros Hload Hlen. unfold build_teams. rewrite Hload.
  destruct (search_cases _ shuffle players g)
    as [[Hlt _] | (_ & r & log & Hloop & ->)]; [lia | ].
  destruct (loop_holds_everyone _ _ _ _ _ _ Hloop) as (st & -> & _ & Hall & Hbest).
  - intros _. reflexivity.
  - intros a b. discriminate.
  - simpl fst. simpl bind.
    destruct (best st) as [[a b]|] eqn:Hb.
    + destruct (Hall a b Hb) as [Hperm ->].
      exists a, b. split; [reflexivity | ].
      unfold members in Hperm. now rewrite <- app_assoc in Hperm.
    + exfalso. apply Hbest; [ | reflexivity].
      right. unfold ITERATIONS. discriminate.
Qed.

End SearchProperties.

(* ------------------------------------------------------------------ *)
(** ** The program run on concrete input *)

Lemma rotate_permutes (n : nat) (l : list Player) :
  Permutation l (fst (rotate n l)).
Proof.
  unfold rotate. simpl.
  rewrite <- (firstn_skipn (n mod List.length l) l) at 1.
  apply Permutation_app_comm.
Qed.

Example game_night_loads : load_players game_night = Ok game_night_players.
Proof. reflexivity. Qed.

(** With both teams empty, [team == team_a] is true of [team_b] as well:
    the trial for [team_b] adds the rank to [proj_a], and the gap is the
    same as if it had been added to [proj_b]. *)
Example empty_teams_compare_equal :
  equals_team_a start RefB = true
  /\ trial_diff start goalie RefB = projected_gap start goalie RefB.
Proof. split; reflexivity. Qed.

(** The fallback at work: thirteen Forwards are all placed, the thirteenth
    going past the target of a team that already has six. *)
Example thirteen_forwards_all_placed :
  exists h,
    build start thirteen_forwards = Ok h
    /\ fallback_free start thirteen_forwards = false
    /\ List.length (F (team_a h)) = 7%nat
    /\ List.length (F (team_b h)) = 6%nat
    /\ D (team_a h) = [] /\ D (team_b h) = [].
Proof.
  eexists. split; [vm_compute; reflexivity | ].
  split; [vm_compute; reflexivity | ].
  split; [reflexivity | ]. split; [reflexivity | ]. split; reflexivity.
Qed.

(** The early stop at work: the first attempt on the twelve players is
    balanced, and the search returns after that single iteration. *)
Example even_night_stops_at_once :
  exists a b it,
    search rotate even_night_players 0%nat = (Ok (a, b, Fin 0), [it])
    /\ total a = 29%Z /\ total b = 29%Z.
Proof.
  eexists. eexists. eexists.
  split; [vm_compute; reflexivity | ]. split; reflexivity.
Qed.

Lemma every_player_placed_once_witness :
  exists a b,
    fst (build_teams rotate game_night 0%nat)
    = Ok (a, b, Fin (Z.abs (total a - total b)))
    /\ Permutation (F a ++ D a ++ F b ++ D b) game_night_players.
Proof.
  apply (every_player_placed_once nat rotate rotate_permutes
           game_night 0%nat game_night_players).
  - reflexivity.
  - vm_compute. lia.
Defined.

Lemma too_few_players_rejected_witness :
  build_teams rotate short_night 0%nat
  = (Raise (ValueError "Not enough selected players"), []).
Proof.
  apply (too_few_players_rejected nat rotate short_night 0%nat
           (firstn 8 game_night_players)).
  - reflexivity.
  - vm_compute. lia.
Defined.

Lemma targets_hold_without_fallback_witness :
  Forall both_within_targets (states start game_night_players)
  /\ List.length (states start game_night_players)
     = List.length game_night_players
  /\ exists h, build start game_night_players = Ok h /\ both_within_targets h.
Proof.
  apply (targets_hold_without_fallback game_night_players).
  vm_compute. reflexivity.
Defined.

Lemma flex_defence_needs_full_forwards_witness :
  can_add (deref full_forwards RefA) "F" = false
  /\ (FORWARDS_TARGET <= List.length (F (deref full_forwards RefA)))%nat
  /\ (within_targets (deref full_forwards RefA) ->
      List.length (F (deref full_forwards RefA)) = FORWARDS_TARGET).
Proof.
  apply (flex_defence_needs_full_forwards full_forwards flex_player RefA).
  - discriminate.
  - discriminate.
  - reflexivity.
  - reflexivity.
Defined.

Lemma other_position_is_flex_witness :
  constrained_options start goalie
  = filter (fun o => can_add (deref start (fst o)) (snd o)) SLOTS
  /\ (fallback_fires start goalie = true <->
      forall o, In o SLOTS -> can_add (deref start (fst o)) (snd o) = false)
  /\ (fallback_fires start goalie = false ->
      exists r pos t,
        can_add (deref start r) pos = true
        /\ assign_player (deref start r) goalie pos = Ok t
        /\ place_player start goalie = Ok (store start r t)).
Proof.
  apply (other_position_is_flex start goalie); discriminate.
Defined.

(* ================================================================== *)
(** * Further properties of the code *)

(* ------------------------------------------------------------------ *)
(** ** Loading the sheet *)

Lemma read_rows_cons (row : Row) (rest : list Row) :
  read_rows (row :: rest)
  = if is_selected (Selected row)
    then bind (player_of_row row)
              (fun p => bind (read_rows rest) (fun players => Ok (p :: players)))
    else read_rows rest.
Proof.
  simpl. unfold player_of_row.
  destruct (is_selected (Selected row)); simpl; [ | reflexivity].
  destruct (py_int (Rank row)); simpl; [ | reflexivity].
  destruct (strip_upper (Position row)); reflexivity.
Qed.

Lemma read_rows_selected (rs : list Row) :
  read_rows rs = read_rows (selected_rows rs).
Proof.
  induction rs as [|row rest IH]; [reflexivity | ].
  rewrite read_rows_cons. unfold selected_rows. simpl filter.
  destruct (is_selected (Selected row)) eqn:Hsel.
  - rewrite read_rows_cons, Hsel. fold (selected_rows rest). now rewrite IH.
  - exact IH.
Qed.

Lemma columns_present (df : DataFrame) :
  forallb (fun c => PyStr.mem c (columns df)) required_columns = true
  <-> (forall c, In c required_columns -> In c (columns df)).
Proof.
  rewrite forallb_forall. split; intros H c Hc.
  - apply PyStrFacts.mem_In. now apply H.
  - apply PyStrFacts.mem_In. now apply H.
Qed.

(** X1.  A frame that lacks one of the columns Selected, Name, Rank,
    Position is refused with the ValueError naming the four, whatever its
    rows hold and however many there are, and no attempt is run. *)
Theorem missing_column_rejected
    (RNG : Type) (shuffle : RNG -> list Player -> list Player * RNG)
    (df : DataFrame) (g : RNG) (c : string) :
  In c required_columns -> ~ In c (columns df) ->
  build_teams shuffle df g
  = (Raise (ValueError "Excel must contain Selected, Name, Rank, Position"), []).
Proof.
  intros Hc Hmiss. unfold build_teams, load_players.
  destruct (forallb (fun c => PyStr.mem c (columns df)) required_columns)
    eqn:Hall; [ | reflexivity].
  exfalso. apply Hmiss. exact (proj1 (columns_present df) Hall c Hc).
Qed.

(** X2.  Rows that are not selected have no part in the outcome: the
    program does the same on the frame with those rows taken out, so what
    their Rank and Position cells hold is never looked at. *)
Theorem unselected_rows_ignored
    (RNG : Type) (shuffle : RNG -> list Player -> list Player * RNG)
    (df : DataFrame) (g : RNG) :
  build_teams shuffle df g
  = build_teams shuffle
      {| columns := columns df; rows := selected_rows (rows df) |} g.
Proof.
  unfold build_teams, load_players. simpl.
  now rewrite (read_rows_selected (rows df)).
Qed.

Lemma read_rows_ok (rs : list Row) :
  forall players,
    read_rows rs = Ok players
    <-> Forall2 (fun row p => player_of_row row = Ok p) (selected_rows rs) players.
Proof.
  induction rs as [|row rest IH]; intros players.
  - simpl. split.
    + intros [= <-]. constructor.
    + intros H. inversion H. reflexivity.
  - rewrite read_rows_cons. unfold selected_rows. simpl filter.
    fold (selected_rows rest).
    destruct (is_selected (Selected row)); [ | apply IH].
    destruct (player_of_row row) as [p|e] eqn:Hrow; simpl.
    + destruct (read_rows rest) as [ps|e] eqn:Hrest; simpl.
      * split.
        -- intros [= <-]. constructor; [exact Hrow | now apply IH].
        -- intros H. inversion H as [|r0 p0 rs0 ps0 Hp Hps]; subst.
           rewrite Hrow in Hp. injection Hp as <-.
           apply IH in Hps. now injection Hps as <-.
      * split; [discriminate | ].
        intros H. inversion H as [|r0 p0 rs0 ps0 Hp Hps]; subst.
        apply IH in Hps. discriminate.
    + split; [discriminate | ].
      intros H. inversion H as [|r0 p0 rs0 ps0 Hp Hps]; subst.
      rewrite Hrow in Hp. discriminate.
Qed.

Lemma player_of_row_ok (row : Row) (p : Player) :
  player_of_row row = Ok p
  <-> exists r s,
        py_int (Rank row) = Ok r /\ Position row = VStr s
        /\ p = {| name := Name row; rank := r;
                  position := PyStr.upper (PyStr.strip s) |}.
Proof.
  unfold player_of_row. split.
  - destruct (py_int (Rank row)) as [r|e]; simpl; [ | discriminate].
    destruct (Position row) as [m|b|z|s|f t]; simpl; try discriminate.
    intros [= <-]. exists r, s. repeat split.
  - intros (r & s & -> & -> & ->). reflexivity.
Qed.

Lemma load_players_rows (df : DataFrame) (players : list Player) :
  load_players df = Ok players ->
  Forall2 (fun row p => player_of_row row = Ok p) (selected_rows (rows df)) players.
Proof.
  unfold load_players.
  destruct (forallb (fun c => PyStr.mem c (columns df)) required_columns);
    simpl; [ | discriminate].
  apply read_rows_ok.
Qed.

(** X3.  For a frame within the text model (7-bit text in its cells),
    loading succeeds exactly when the four columns are there and every
    selected row has a Rank [int] accepts and a text Position; the players
    are then the selected rows, one for one and in the order of the sheet,
    each with its name, its rank as an integer and its position trimmed and
    in upper case. *)
Theorem load_players_ok_iff (df : DataFrame) (players : list Player) :
  frame_in_text_model df = true ->
  (load_players df = Ok players
   <-> (forall c, In c required_columns -> In c (columns df))
       /\ Forall2
            (fun row p =>
               exists r s,
                 py_int (Rank row) = Ok r /\ Position row = VStr s
                 /\ p = {| name := Name row; rank := r;
                           position := PyStr.upper (PyStr.strip s) |})
            (selected_rows (rows df)) players).
Proof.
  intros _.
  pose proof player_of_row_ok as Hrow.
  unfold load_players. rewrite <- columns_present.
  destruct (forallb (fun c => PyStr.mem c (columns df)) required_columns); simpl.
  - rewrite read_rows_ok. split.
    + intros H. split; [reflexivity | ].
      eapply Forall2_impl; [ | exact H]. intros row p. apply Hrow.
    + intros [_ H]. eapply Forall2_impl; [ | exact H]. intros row p. apply Hrow.
  - split; [discriminate | intros [H _]; discriminate].
Qed.

Lemma py_int_raises (v : value) (e : exn) : py_int v = Raise e -> e = RankError.
Proof.
  destruct v as [m|b|z|s|f [t|]]; simpl; try discriminate;
    try (intros [= <-]; reflexivity).
  destruct (int_of_text s); [discriminate | intros [= <-]; reflexivity].
Qed.

Lemma player_of_row_raises (row : Row) (e : exn) :
  player_of_row row = Raise e
  <-> (py_int (Rank row) = Raise e /\ e = RankError)
      \/ ((exists z, py_int (Rank row) = Ok z)
          /\ (forall s, Position row <> VStr s) /\ e = AttributeError).
Proof.
  unfold player_of_row. split.
  - destruct (py_int (Rank row)) as [r|e0] eqn:Hr; simpl.
    + destruct (Position row) as [m|b|z|s|f t]; simpl; try discriminate;
        intros [= <-]; right; (split; [now exists r | split; [discriminate | reflexivity]]).
    + intros [= <-]. left. split; [reflexivity | exact (py_int_raises _ _ Hr)].
  - intros [[-> _] | [[z ->] [Hpos ->]]]; [reflexivity | ]. simpl.
    destruct (Position row) as [m|b|z0|s|f t]; try reflexivity.
    now destruct (Hpos s).
Qed.

Lemma read_rows_raise (rs : list Row) (e : exn) :
  read_rows rs = Raise e
  <-> exists pre row post,
        selected_rows rs = pre ++ row :: post
        /\ Forall (fun r => exists p, player_of_row r = Ok p) pre
        /\ player_of_row row = Raise e.
Proof.
  induction rs as [|row rest IH].
  - simpl. split; [discriminate | ].
    intros (pre & r & post & H & _). now destruct pre.
  - rewrite read_rows_cons. unfold selected_rows. simpl filter.
    fold (selected_rows rest).
    destruct (is_selected (Selected row)); [ | exact IH].
    destruct (player_of_row row) as [p|e0] eqn:Hrow; simpl.
    + destruct (read_rows rest) as [ps|e1] eqn:Hrest; simpl.
      * split; [discriminate | ].
        intros (pre & r & post & Hsplit & Hpre & Hr).
        destruct pre as [|r0 pre]; simpl in Hsplit; injection Hsplit as <- Hsplit.
        -- congruence.
        -- inversion Hpre as [|x xs Hx Hxs]; subst.
           assert (Hbad : Ok ps = Raise e).
           { apply IH. exists pre, r, post.
             split; [exact Hsplit | ]. split; assumption. }
           discriminate.
      * split.
        -- intros He. apply IH in He.
           destruct He as (pre & r & post & Hsplit & Hpre & Hr).
           exists (row :: pre), r, post. rewrite Hsplit.
           split; [reflexivity | ]. split; [ | exact Hr].
           constructor; [now exists p | exact Hpre].
        -- intros (pre & r & post & Hsplit & Hpre & Hr).
           destruct pre as [|r0 pre]; simpl in Hsplit; injection Hsplit as <- Hsplit.
           ++ congruence.
           ++ inversion Hpre as [|x xs Hx Hxs]; subst. apply IH.
              exists pre, r, post.
              split; [exact Hsplit | ]. split; assumption.
    + split.
      * intros [= <-]. exists [], row, (selected_rows rest).
        split; [reflexivity | ]. split; [constructor | exact Hrow].
      * intros (pre & r & post & Hsplit & Hpre & Hr).
        destruct pre as [|r0 pre]; simpl in Hsplit; injection Hsplit as <- Hsplit.
        -- congruence.
        -- inversion Hpre as [|x xs [p Hp] Hxs]; subst. congruence.
Qed.

(** X4.  For a frame within the text model (7-bit text in its cells) that
    has the four columns, loading raises exactly when some selected row is
    malformed, and the first such row in the sheet decides the exception:
    the one [int] raises if its Rank is refused, whatever its Position, and
    AttributeError if its Rank is fine and its Position is not text.  Rows
    after it are not examined. *)
Theorem first_bad_row_decides (df : DataFrame) (e : exn) :
  frame_in_text_model df = true ->
  (forall c, In c required_columns -> In c (columns df)) ->
  (load_players df = Raise e
   <-> exists pre row post,
         selected_rows (rows df) = pre ++ row :: post
         /\ Forall (fun r => (exists z, py_int (Rank r) = Ok z)
                             /\ (exists s, Position r = VStr s)) pre
         /\ ((py_int (Rank row) = Raise e /\ e = RankError)
             \/ ((exists z, py_int (Rank row) = Ok z)
                 /\ (forall s, Position row <> VStr s)
                 /\ e = AttributeError))).
Proof.
  intros _ Hcols. apply columns_present in Hcols.
  unfold load_players. rewrite Hcols. simpl. rewrite read_rows_raise.
  split; intros (pre & row & post & Hsplit & Hpre & Hrow);
    exists pre, row, post; (split; [exact Hsplit | ]); split.
  - eapply Forall_impl; [ | exact Hpre]. intros r [p Hp].
    apply player_of_row_ok in Hp. destruct Hp as (z & s & Hz & Hs & _). eauto.
  - now apply player_of_row_raises.
  - eapply Forall_impl; [ | exact Hpre]. intros r [[z Hz] [s Hs]].
    eexists. apply player_of_row_ok. eauto.
  - now apply player_of_row_raises.
Qed.

Lemma upper_char_F (c : ascii) :
  PyStr.upper_char c = "F"%char <-> c = "F"%char \/ c = "f"%char.
Proof.
  destruct c as [[] [] [] [] [] [] [] []]; vm_compute;
    (split; [intros H; first [discriminate H | now left | now right]
            | intros [H | H]; first [discriminate H | reflexivity]]).
Qed.

Lemma upper_char_D (c : ascii) :
  PyStr.upper_char c = "D"%char <-> c = "D"%char \/ c = "d"%char.
Proof.
  destruct c as [[] [] [] [] [] [] [] []]; vm_compute;
    (split; [intros H; first [discriminate H | now left | now right]
            | intros [H | H]; first [discriminate H | reflexivity]]).
Qed.

Lemma upper_one_char (s : string) (c : ascii) :
  PyStr.upper s = String c EmptyString
  <-> exists d, s = String d EmptyString /\ PyStr.upper_char d = c.
Proof.
  split.
  - destruct s as [|d [|d' s']]; simpl; try discriminate.
    intros [= <-]. now exists d.
  - intros (d & -> & <-). reflexivity.
Qed.

Lemma upper_is_F (s : string) :
  PyStr.upper s = "F"%string <-> s = "F"%string \/ s = "f"%string.
Proof.
  rewrite upper_one_char. split.
  - intros (d & -> & Hd). apply upper_char_F in Hd. destruct Hd as [-> | ->]; auto.
  - intros [-> | ->]; eexists; split; reflexivity.
Qed.

Lemma upper_is_D (s : string) :
  PyStr.upper s = "D"%string <-> s = "D"%string \/ s = "d"%string.
Proof.
  rewrite upper_one_char. split.
  - intros (d & -> & Hd). apply upper_char_D in Hd. destruct Hd as [-> | ->]; auto.
  - intros [-> | ->]; eexists; split; reflexivity.
Qed.

(** X5.  How a Position cell must be spelled, for a frame within the text
    model (7-bit text in its cells): a loaded player passes the Forward
    check of the constructor exactly when the cell, blanks around it
    removed, reads F or f, and the Defence check exactly when it reads D or
    d.  Any other text, Forward and Defence written out among them, makes
    the player a Flex player. *)
Theorem position_spelling (df : DataFrame) (players : list Player) :
  frame_in_text_model df = true ->
  load_players df = Ok players ->
  Forall2
    (fun row p =>
       exists s,
         Position row = VStr s
         /\ (position p = "F"%string
             <-> PyStr.strip s = "F"%string \/ PyStr.strip s = "f"%string)
         /\ (position p = "D"%string
             <-> PyStr.strip s = "D"%string \/ PyStr.strip s = "d"%string))
    (selected_rows (rows df)) players.
Proof.
  intros _ Hload. apply load_players_rows in Hload.
  eapply Forall2_impl; [ | exact Hload]. intros row p Hp.
  apply player_of_row_ok in Hp. destruct Hp as (r & s & _ & Hs & ->).
  exists s. simpl. split; [exact Hs | ].
  split; [apply upper_is_F | apply upper_is_D].
Qed.

(* ------------------------------------------------------------------ *)
(** ** More on the greedy constructor *)

Lemma In_FALLBACK (r : team_ref) (pos : string) :
  is_role pos -> In (r, pos) FALLBACK.
Proof. unfold FALLBACK. intros [-> | ->]; destruct r; simpl; auto. Qed.

Lemma constrained_options_forward (h : teams) (player : Player) (o : option_) :
  position player = "F"%string ->
  In o (constrained_options h player) -> snd o = "F"%string.
Proof.
  intros Hpos. unfold constrained_options, offered. rewrite Hpos. simpl.
  destruct (can_add (team_a h) "F"), (can_add (team_b h) "F"); simpl;
    intros H; repeat (destruct H as [<- | H]; [reflexivity | ]); contradiction.
Qed.

(** A move into a Defence list is always one the targets allow, made for a
    player who is not a Forward. *)
Lemma defence_move (h : teams) (player : Player) (r : team_ref) :
  best_move h player = Some (r, "D"%string) ->
  fallback_fires h player = false
  /\ can_add (deref h r) "D" = true
  /\ position player <> "F"%string.
Proof.
  intros Hbest.
  assert (Hfb : fallback_fires h player = false).
  { destruct (fallback_fires h player) eqn:Hfb; [exfalso | reflexivity].
    apply (best_move_defence h player r Hbest).
    unfold options. rewrite Hfb. apply In_FALLBACK. now left. }
  split; [exact Hfb | ].
  pose proof (best_move_In h player _ Hbest) as Hin.
  rewrite (options_not_fallback _ _ Hfb) in Hin.
  split.
  - exact (proj2 (constrained_options_In h player _ Hin)).
  - intros Hpos.
    pose proof (constrained_options_forward h player _ Hpos Hin) as H.
    discriminate.
Qed.

(** What a placement does to the two teams, by the slot chosen. *)
Lemma place_player_move (h h' : teams) (player : Player) :
  place_player h player = Ok h' ->
  exists r pos,
    best_move h player = Some (r, pos)
    /\ ((pos = "F"%string
         /\ h' = store h r {| F := F (deref h r) ++ [player];
                              D := D (deref h r);
                              total := total (deref h r) + rank player |})
        \/ (pos = "D"%string
            /\ h' = store h r {| F := F (deref h r);
                                 D := D (deref h r) ++ [player];
                                 total := total (deref h r) + rank player |})).
Proof.
  intros Hplace.
  destruct (place_player_total h player)
    as (r & pos & t & Hbest & Hrole & Ht & Hplace').
  rewrite Hplace' in Hplace. injection Hplace as <-.
  exists r, pos. split; [exact Hbest | ].
  destruct Hrole as [-> | ->]; unfold assign_player in Ht; simpl in Ht;
    injection Ht as <-; [left | right]; split; reflexivity.
Qed.

(** A property kept by every placement holds after every assignment of a
    run that starts with it. *)
Lemma run_invariant (P : teams -> Prop) :
  (forall h player h', P h -> place_player h player = Ok h' -> P h') ->
  forall l h, P h ->
    Forall P (states h l) /\ exists h', build h l = Ok h' /\ P h'.
Proof.
  intros Hstep l. induction l as [|p l IH]; intros h Hh; simpl.
  - split; [constructor | ]. now exists h.
  - destruct (place_player_total h p) as (r & pos & t & _ & _ & _ & Hplace).
    rewrite Hplace. simpl.
    pose proof (Hstep _ _ _ Hh Hplace) as Hh'.
    destruct (IH _ Hh') as [Hall Hfin]. split; [now constructor | exact Hfin].
Qed.

Lemma place_player_defence_target (h h' : teams) (player : Player) :
  defence_within_target h -> place_player h player = Ok h' ->
  defence_within_target h'.
Proof.
  intros [Ha Hb] Hplace.
  destruct (place_player_move _ _ _ Hplace)
    as (r & pos & Hbest & [[-> ->] | [-> ->]]).
  - unfold defence_within_target. destruct r; simpl; auto.
  - destruct (defence_move _ _ _ Hbest) as (_ & Hadd & _).
    unfold can_add in Hadd. simpl in Hadd. apply Nat.ltb_lt in Hadd.
    unfold defence_within_target.
    destruct r; simpl in *; rewrite ?length_app; simpl; split; lia.
Qed.

(** X6.  The Defence target is never exceeded: in every run of the
    constructor from the two empty teams, the fallback firing or not, both
    Defence lists hold at most DEFENCE_TARGET players after every
    assignment and in the teams returned.  Only Forward lists overflow. *)
Theorem defence_target_never_exceeded (players_list : list Player) :
  Forall defence_within_target (states start players_list)
  /\ exists h, build start players_list = Ok h /\ defence_within_target h.
Proof.
  apply (run_invariant defence_within_target).
  - intros h p h' Hh Hplace. exact (place_player_defence_target _ _ _ Hh Hplace).
  - unfold defence_within_target, start, DEFENCE_TARGET. simpl. lia.
Qed.

(** X7.  A player whose position is F is never put in a Defence list: in
    every run from the two empty teams the Defence lists hold only players
    of other positions, after every assignment and in the teams returned. *)
Theorem forwards_never_play_defence (players_list : list Player) :
  Forall no_forward_in_defence (states start players_list)
  /\ exists h, build start players_list = Ok h /\ no_forward_in_defence h.
Proof.
  apply (run_invariant no_forward_in_defence).
  - intros h p h' Hh Hplace. unfold no_forward_in_defence in *.
    destruct (place_player_move _ _ _ Hplace)
      as (r & pos & Hbest & [[-> ->] | [-> ->]]).
    + destruct r; exact Hh.
    + destruct (defence_move _ _ _ Hbest) as (_ & _ & Hpos).
      apply Forall_app in Hh. destruct Hh as [Ha Hb].
      destruct r; simpl; apply Forall_app; split; try assumption;
        apply Forall_app; split; try assumption; constructor; auto.
  - constructor.
Qed.

(** X8.  When the fallback fires the player is placed as a Forward,
    whatever the player's position: on [team_a], unless adding the rank to
    [team_b] gives a strictly smaller gap.  The Defence lists are left as
    they are. *)
Theorem fallback_places_forward (h : teams) (player : Player) :
  fallback_fires h player = true ->
  let r := if (projected_gap h player RefB <? projected_gap h player RefA)%Z
           then RefB else RefA in
  place_player h player
  = Ok (store h r {| F := F (deref h r) ++ [player];
                     D := D (deref h r);
                     total := total (deref h r) + rank player |}).
Proof.
  intros Hfb. cbv zeta.
  assert (Hbest : best_move h player
                  = Some (if (projected_gap h player RefB
                              <? projected_gap h player RefA)%Z
                          then RefB else RefA, "F"%string)).
  { rewrite <- !trial_diff_gap. unfold best_move, options. rewrite Hfb.
    unfold select, FALLBACK, consider. cbn [fold_left fst snd lt_ext].
    set (dA := trial_diff h player RefA). set (dB := trial_diff h player RefB).
    destruct (dB <? dA)%Z eqn:Hlt; cbn [fst snd lt_ext].
    - apply Z.ltb_lt in Hlt.
      rewrite (proj2 (Z.ltb_ge dA dB)) by lia. cbn [fst snd lt_ext].
      now rewrite Z.ltb_irrefl.
    - rewrite Z.ltb_irrefl. cbn [fst snd lt_ext]. now rewrite Hlt. }
  unfold place_player. rewrite Hbest. reflexivity.
Qed.

Lemma sum_ranks_perm (l m : list Player) :
  Permutation l m -> sum_ranks l = sum_ranks m.
Proof.
  induction 1 as [|x l m _ IH|x y l|l m n _ IH1 _ IH2]; simpl; lia.
Qed.

Lemma place_player_totals (h h' : teams) (player : Player) :
  total (team_a h) = sum_ranks (members (team_a h))
  /\ total (team_b h) = sum_ranks (members (team_b h)) ->
  place_player h player = Ok h' ->
  total (team_a h') = sum_ranks (members (team_a h'))
  /\ total (team_b h') = sum_ranks (members (team_b h')).
Proof.
  intros [Ha Hb] Hplace.
  destruct (place_player_total h player)
    as (r & pos & t & _ & _ & Ht & Hplace').
  rewrite Hplace' in Hplace. injection Hplace as <-.
  destruct r; simpl in *; split; try assumption;
    eapply assign_player_total; eassumption.
Qed.

Section AttemptFacts.

Variable RNG : Type.
Variable shuffle : RNG -> list Player -> list Player * RNG.
Hypothesis shuffle_permutes :
  forall g l, Permutation l (fst (shuffle g l)).

(** X9.  One attempt on any list of players, the empty list and lists
    shorter than a roster included, returns two teams that hold exactly
    the players given, each team's total being the sum of the ranks of its
    members and the two totals adding up to the sum of all ranks. *)
Theorem attempt_conserves_ranks (g : RNG) (players_list : list Player) :
  exists h,
    fst (attempt_build shuffle g players_list) = Ok h
    /\ Permutation (roster h) players_list
    /\ total (team_a h) = sum_ranks (members (team_a h))
    /\ total (team_b h) = sum_ranks (members (team_b h))
    /\ (total (team_a h) + total (team_b h))%Z = sum_ranks players_list.
Proof.
  destruct (attempt_build_ok _ shuffle g players_list) as (h & Hab & Hbuild).
  exists h. rewrite Hab. split; [reflexivity | ].
  assert (Hperm : Permutation (roster h) players_list).
  { rewrite (build_roster _ _ _ Hbuild). simpl. rewrite app_nil_r.
    symmetry. apply shuffle_permutes. }
  split; [exact Hperm | ].
  destruct (run_invariant
              (fun h => total (team_a h) = sum_ranks (members (team_a h))
                        /\ total (team_b h) = sum_ranks (members (team_b h)))
              (fun h p h' Hh Hp => place_player_totals h h' p Hh Hp)
              (fst (shuffle g players_list)) start (conj eq_refl eq_refl))
    as [_ (h' & Hbuild' & Ha & Hb)].
  rewrite Hbuild in Hbuild'. injection Hbuild' as <-.
  split; [exact Ha | ]. split; [exact Hb | ].
  rewrite <- (sum_ranks_perm _ _ Hperm). unfold roster.
  rewrite sum_ranks_app. lia.
Qed.

End AttemptFacts.

Lemma best_move_least (h : teams) (player : Player) (m o : option_) :
  best_move h player = Some m -> In o (options h player) ->
  (projected_gap h player (fst m) <= projected_gap h player (fst o))%Z.
Proof.
  intros Hm Ho.
  destruct (best_move_first_least h player)
    as (pre & m' & post & Hsplit & Hbest & Hpre & Hpost).
  rewrite Hbest in Hm. injection Hm as ->.
  rewrite Hsplit in Ho. apply in_app_iff in Ho.
  destruct Ho as [Ho | [<- | Ho]].
  - specialize (Hpre _ Ho). lia.
  - lia.
  - exact (Hpost _ Ho).
Qed.

Lemma offers_In (opts : list option_) (r : team_ref) :
  offers opts r = true -> exists pos, In (r, pos) opts.
Proof.
  unfold offers. rewrite existsb_exists. intros [[r' pos] [Hin Heq]].
  apply ref_eqb_eq in Heq. simpl in Heq. subst r'. now exists pos.
Qed.

Lemma place_player_gap (h h' : teams) (player : Player) :
  place_player h player = Ok h' ->
  exists r pos,
    best_move h player = Some (r, pos)
    /\ gap_of h' = projected_gap h player r.
Proof.
  intros Hplace.
  destruct (place_player_move _ _ _ Hplace)
    as (r & pos & Hbest & [[_ ->] | [_ ->]]);
    exists r, pos; (split; [exact Hbest | ]); destruct r; reflexivity.
Qed.

Lemma both_offered_gap (h h' : teams) (player : Player) :
  both_offered h player = true ->
  place_player h player = Ok h' ->
  gap_of h' = Z.abs (gap_of h - Z.abs (rank player)).
Proof.
  intros Hboth Hplace. unfold both_offered in Hboth.
  apply andb_prop in Hboth. destruct Hboth as [HA HB].
  apply offers_In in HA, HB. destruct HA as [pa HA]. destruct HB as [pb HB].
  destruct (place_player_gap _ _ _ Hplace) as (r & pos & Hbest & ->).
  pose proof (best_move_least h player _ _ Hbest HA) as HleA.
  pose proof (best_move_least h player _ _ Hbest HB) as HleB.
  simpl in HleA, HleB. unfold gap_of.
  destruct r; unfold projected_gap in *; lia.
Qed.

(** X10.  A placement made with both teams on offer leaves the gap at the
    distance between the old gap and the size of the rank placed: the
    player goes to the side that closes the gap.  With one team only on
    offer the new gap is the one projected for that team. *)
Theorem placement_closes_gap (h h' : teams) (player : Player) :
  place_player h player = Ok h' ->
  (both_offered h player = true ->
   gap_of h' = Z.abs (gap_of h - Z.abs (rank player)))
  /\ (exists r pos, best_move h player = Some (r, pos)
                    /\ gap_of h' = projected_gap h player r).
Proof.
  intros Hplace. split.
  - intros Hboth. exact (both_offered_gap _ _ _ Hboth Hplace).
  - exact (place_player_gap _ _ _ Hplace).
Qed.

Lemma balanced_run (l : list Player) (bound : Z) :
  forall h,
    always_both_offered h l = true ->
    Forall (fun p => (Z.abs (rank p) <= bound)%Z) l ->
    (gap_of h <= bound)%Z ->
    exists h', build h l = Ok h' /\ (gap_of h' <= bound)%Z.
Proof.
  induction l as [|p l IH]; intros h Hboth Hranks Hgap; simpl.
  - now exists h.
  - simpl in Hboth. apply andb_prop in Hboth. destruct Hboth as [Hp Hrest].
    inversion Hranks as [|x xs Hrank Hranks']; subst.
    destruct (place_player h p) as [h1|e] eqn:Hplace.
    + simpl. apply IH; [exact Hrest | exact Hranks' | ].
      rewrite (both_offered_gap h h1 p Hp Hplace).
      unfold gap_of in *. lia.
    + destruct (place_player_total h p) as (r & pos & t & _ & _ & _ & H).
      congruence.
Qed.

(** X11.  In a run from the two empty teams in which every player has
    both teams on offer, the final gap is no larger than the largest rank
    in size: with ranks up to 9, say, the teams end at most 9 apart. *)
Theorem balanced_run_bound (players_list : list Player) (bound : Z) :
  always_both_offered start players_list = true ->
  Forall (fun p => (Z.abs (rank p) <= bound)%Z) players_list ->
  (0 <= bound)%Z ->
  exists h, build start players_list = Ok h /\ (gap_of h <= bound)%Z.
Proof.
  intros Hboth Hranks Hbound.
  apply balanced_run; [exact Hboth | exact Hranks | exact Hbound].
Qed.

(* ------------------------------------------------------------------ *)
(** ** More on the search driver *)

Lemma keep_best_le_gap (st : tracker) (a b : team) :
  le_ext (best_diff (keep_best st a b)) (Fin (Z.abs (total a - total b))).
Proof.
  destruct (keep_best_cases st a b) as [[_ ->] | [Hlt ->]].
  - simpl. lia.
  - now apply lt_ext_false.
Qed.

Lemma tracker_before_coherent (log : list iteration) :
  forall st k, coherent st -> log_follows st log ->
  coherent (tracker_before st log k).
Proof.
  induction log as [|it log IH]; intros st k Hst Hlog.
  - destruct k; exact Hst.
  - destruct k as [|k]; [exact Hst | ]. simpl.
    destruct Hlog as [Hstep Hrest]. apply IH; [ | exact Hrest].
    unfold step_of in Hstep. destruct (attempt it); rewrite Hstep;
      [now apply keep_best_coherent | exact Hst].
Qed.

(** The tracker a log ends with is no larger than any of its attempts. *)
Lemma log_follows_least (log : list iteration) :
  forall st it h, log_follows st log -> In it log -> attempt it = Ok h ->
  le_ext (best_diff (tracker_before st log (List.length log))) (Fin (gap_of h)).
Proof.
  induction log as [|it0 log IH]; intros st it h Hlog Hin Hh; [destruct Hin | ].
  destruct Hlog as [Hstep Hrest]. simpl. destruct Hin as [<- | Hin].
  - eapply le_ext_trans; [apply log_follows_le_start, Hrest | ].
    unfold step_of in Hstep. rewrite Hh in Hstep. rewrite Hstep.
    apply keep_best_le_gap.
  - exact (IH _ _ _ Hrest Hin Hh).
Qed.

(** The tracker a log ends with is the one it started from or was set by
    the first attempt of least diff. *)
Lemma log_follows_first (log : list iteration) :
  forall st, log_follows st log ->
  tracker_before st log (List.length log) = st
  \/ exists i it h,
       nth_error log i = Some it /\ attempt it = Ok h
       /\ tracker_before st log (List.length log)
          = {| best := Some (team_a h, team_b h); best_diff := Fin (gap_of h) |}
       /\ lt_ext (gap_of h) (best_diff st) = true
       /\ forall j itj hj, (j < i)%nat -> nth_error log j = Some itj ->
            attempt itj = Ok hj -> (gap_of h < gap_of hj)%Z.
Proof.
  induction log as [|it0 log IH]; intros st Hlog; [now left | ].
  destruct Hlog as [Hstep Hrest]. simpl.
  destruct (IH _ Hrest) as [Heq | (i & it & h & Hnth & Hh & Hfin & Hlt & Hbefore)].
  - rewrite Heq. unfold step_of in Hstep.
    destruct (attempt it0) as [h0|e] eqn:Hh0; [ | now left].
    destruct (keep_best_cases st (team_a h0) (team_b h0)) as [[Hlt Hk] | [_ Hk]];
      rewrite Hk in Hstep; [right | now left].
    exists O, it0, h0. repeat split; try assumption. intros j itj hj Hj. lia.
  - right. exists (S i), it, h. rewrite Hfin.
    assert (Hle : le_ext (best_diff (after it0)) (best_diff st))
      by now apply step_of_le.
    split; [exact Hnth | ]. split; [exact Hh | ]. split; [reflexivity | ].
    split.
    + destruct (after it0) as [b0 [z0|]], st as [b1 [z1|]]; simpl in *;
        try reflexivity; try contradiction.
      apply Z.ltb_lt in Hlt. apply Z.ltb_lt. lia.
    + intros [|j] itj hj Hj Hnthj Hhj; simpl in Hnthj.
      * injection Hnthj as <-. unfold step_of in Hstep. rewrite Hhj in Hstep.
        pose proof (keep_best_le_gap st (team_a hj) (team_b hj)) as Hg.
        rewrite <- Hstep in Hg. fold (gap_of hj) in Hg.
        destruct (best_diff (after it0)); simpl in *; [ | contradiction].
        apply Z.ltb_lt in Hlt. lia.
      * apply (Hbefore j itj hj); [lia | assumption | assumption].
Qed.

Section MoreSearchFacts.

Variable RNG : Type.
Variable shuffle : RNG -> list Player -> list Player * RNG.

Lemma loop_attempts_built (players : list Player) (n : nat) :
  forall g st r log,
    loop shuffle n players g st = (r, log) ->
    forall it, In it log ->
    exists g' h, attempt it = Ok h
                 /\ build start (fst (shuffle g' players)) = Ok h.
Proof.
  induction n as [|n IH]; intros g st r log Hloop it Hin.
  - injection Hloop as <- <-. destruct Hin.
  - destruct (loop_S _ shuffle players n g st) as (h & Hbuild & Heq).
    rewrite Heq in Hloop. clear Heq. cbv zeta in Hloop.
    destruct (is_zero (best_diff (keep_best st (team_a h) (team_b h)))).
    + injection Hloop as <- <-. destruct Hin as [<- | []].
      exists g, h. split; [reflexivity | exact Hbuild].
    + destruct (loop shuffle n players (snd (shuffle g players))
                  (keep_best st (team_a h) (team_b h))) as [r' log'] eqn:Hrec.
      injection Hloop as <- <-. destruct Hin as [<- | Hin].
      * exists g, h. split; [reflexivity | exact Hbuild].
      * exact (IH _ _ _ _ Hrec it Hin).
Qed.

Lemma loop_full_or_zero (players : list Player) (n : nat) :
  forall g st r log,
    loop shuffle n players g st = (r, log) ->
    List.length log = n
    \/ is_zero (best_diff (tracker_before st log (List.length log))) = true.
Proof.
  induction n as [|n IH]; intros g st r log Hloop.
  - injection Hloop as <- <-. now left.
  - destruct (loop_S _ shuffle players n g st) as (h & Hbuild & Heq).
    rewrite Heq in Hloop. clear Heq. cbv zeta in Hloop.
    destruct (is_zero (best_diff (keep_best st (team_a h) (team_b h))))
      eqn:Hz.
    + injection Hloop as <- <-. right. exact Hz.
    + destruct (loop shuffle n players (snd (shuffle g players))
                  (keep_best st (team_a h) (team_b h))) as [r' log'] eqn:Hrec.
      injection Hloop as <- <-. simpl.
      destruct (IH _ _ _ _ Hrec) as [Hlen | Hzero]; [left; lia | now right].
Qed.

(** What [search] returns, read off its log. *)
Lemma search_result (players : list Player) (g : RNG) :
  let log := snd (search shuffle players g) in
  let fin := tracker_before no_best log (List.length log) in
  ((List.length players < 10)%nat /\ log = []
   /\ fst (search shuffle players g)
      = Raise (ValueError "Not enough selected players"))
  \/ ((10 <= List.length players)%nat
      /\ log_follows no_best log
      /\ (forall it, In it log ->
            exists g' h, attempt it = Ok h
                         /\ build start (fst (shuffle g' players)) = Ok h)
      /\ (List.length log = ITERATIONS \/ is_zero (best_diff fin) = true)
      /\ exists i it h,
           nth_error log i = Some it /\ attempt it = Ok h
           /\ fin = {| best := Some (team_a h, team_b h);
                       best_diff := Fin (gap_of h) |}
           /\ fst (search shuffle players g)
              = Ok (team_a h, team_b h, Fin (gap_of h))
           /\ forall j itj hj, (j < i)%nat -> nth_error log j = Some itj ->
                attempt itj = Ok hj -> (gap_of h < gap_of hj)%Z).
Proof.
  cbv zeta.
  destruct (search_cases _ shuffle players g)
    as [[Hlt ->] | (Hge & r & log & Hloop & ->)]; simpl fst; simpl snd.
  - left. repeat split. exact Hlt.
  - right. split; [exact Hge | ].
    pose proof (loop_follows _ shuffle _ _ _ _ _ _ Hloop) as Hlog.
    split; [exact Hlog | ].
    split; [exact (loop_attempts_built _ _ _ _ _ _ Hloop) | ].
    pose proof (loop_full_or_zero _ _ _ _ _ _ Hloop) as Hfull.
    split; [exact Hfull | ].
    rewrite (loop_result_last _ shuffle _ _ _ _ _ _ Hloop). simpl bind.
    destruct (log_follows_first log no_best Hlog)
      as [Heq | (i & it & h & Hnth & Hh & Hfin & _ & Hbefore)].
    + exfalso. destruct Hfull as [Hlen | Hzero].
      * destruct log as [|it0 log']; [unfold ITERATIONS in Hlen; discriminate | ].
        destruct (loop_attempts_ok _ shuffle _ _ _ _ _ _ Hloop it0
                    (or_introl eq_refl)) as [h0 Hh0].
        pose proof (log_follows_least (it0 :: log') no_best it0 h0 Hlog
                      (or_introl eq_refl) Hh0) as Hle.
        rewrite Heq in Hle. exact Hle.
      * rewrite Heq in Hzero. discriminate.
    + exists i, it, h. rewrite Hfin. simpl.
      repeat split; assumption.
Qed.

End MoreSearchFacts.

Lemma odd_abs_sub (x y : Z) : Z.odd (Z.abs (x - y)) = Z.odd (x + y).
Proof.
  destruct (Z.abs_spec (x - y)) as [[_ ->] | [_ ->]];
    rewrite ?Z.odd_opp, Z.odd_sub, Z.odd_add; reflexivity.
Qed.

Lemma build_totals (l : list Player) (h : teams) :
  build start l = Ok h ->
  total (team_a h) = sum_ranks (members (team_a h))
  /\ total (team_b h) = sum_ranks (members (team_b h)).
Proof.
  intros Hbuild.
  destruct (run_invariant
              (fun h => total (team_a h) = sum_ranks (members (team_a h))
                        /\ total (team_b h) = sum_ranks (members (team_b h)))
              (fun h p h' Hh Hp => place_player_totals h h' p Hh Hp)
              l start (conj eq_refl eq_refl))
    as [_ (h' & Hbuild' & Hh')].
  rewrite Hbuild in Hbuild'. injection Hbuild' as <-. exact Hh'.
Qed.

Section SearchOutcome.

Variable RNG : Type.
Variable shuffle : RNG -> list Player -> list Player * RNG.

(** X12.  What the search returns is the first attempt of least diff: the
    teams and the diff are those of one logged attempt, no attempt of the
    call has a smaller diff, and every attempt before that one has a
    strictly larger diff. *)
Theorem search_returns_first_least
    (players : list Player) (g : RNG) (a b : team) (d : ext) :
  fst (search shuffle players g) = Ok (a, b, d) ->
  let log := snd (search shuffle players g) in
  exists i it h,
    nth_error log i = Some it /\ attempt it = Ok h
    /\ a = team_a h /\ b = team_b h /\ d = Fin (gap_of h)
    /\ forall j itj hj, nth_error log j = Some itj -> attempt itj = Ok hj ->
         (gap_of h <= gap_of hj)%Z /\ ((j < i)%nat -> (gap_of h < gap_of hj)%Z).
Proof.
  intros Hres. cbv zeta.
  destruct (search_result _ shuffle players g)
    as [(_ & _ & Hraise)
       | (_ & Hlog & _ & _ & i & it & h & Hnth & Hh & Hfin & Hok & Hbefore)].
  - rewrite Hraise in Hres. discriminate.
  - rewrite Hok in Hres. injection Hres as <- <- <-.
    exists i, it, h. repeat split; try assumption.
    + pose proof (log_follows_least _ no_best itj hj Hlog
                    (nth_error_In _ _ H) H0) as Hle.
      rewrite Hfin in Hle. exact Hle.
    + intros Hj. exact (Hbefore j itj hj Hj H H0).
Qed.

(** X13.  With 10 players or more the search runs at least one attempt
    and all ITERATIONS of them unless it returns a diff of 0: a log shorter
    than ITERATIONS means a perfect balance was returned. *)
Theorem search_runs_all_unless_balanced (players : list Player) (g : RNG) :
  (10 <= List.length players)%nat ->
  let log := snd (search shuffle players g) in
  (1 <= List.length log)%nat
  /\ (List.length log = ITERATIONS
      \/ exists a b, fst (search shuffle players g) = Ok (a, b, Fin 0)).
Proof.
  intros Hlen. cbv zeta.
  destruct (search_result _ shuffle players g)
    as [(Hlt & _) | (_ & _ & _ & Hfull & i & it & h & Hnth & _ & Hfin & Hok & _)];
    [lia | ].
  split.
  - apply nth_error_In in Hnth.
    destruct (snd (search shuffle players g)); [destruct Hnth | simpl; lia].
  - destruct Hfull as [Hall | Hzero]; [now left | right].
    rewrite Hfin in Hzero. apply is_zero_Fin in Hzero. simpl in Hzero.
    exists (team_a h), (team_b h). now rewrite Hok, Hzero.
Qed.

Hypothesis shuffle_permutes :
  forall g l, Permutation l (fst (shuffle g l)).

Lemma built_gap_parity (players : list Player) (g : RNG) (h : teams) :
  build start (fst (shuffle g players)) = Ok h ->
  Permutation (roster h) players
  /\ Z.odd (gap_of h) = Z.odd (sum_ranks players).
Proof.
  intros Hbuild.
  assert (Hperm : Permutation (roster h) players).
  { rewrite (build_roster _ _ _ Hbuild). simpl. rewrite app_nil_r.
    symmetry. apply shuffle_permutes. }
  split; [exact Hperm | ].
  destruct (build_totals _ _ Hbuild) as [Ha Hb].
  unfold gap_of. rewrite odd_abs_sub, <- (sum_ranks_perm _ _ Hperm).
  unfold roster. rewrite sum_ranks_app. now rewrite Ha, Hb.
Qed.

(** X14.  The diff returned has the parity of the sum of all ranks.  A
    roster whose ranks add up to an odd number is therefore never balanced
    perfectly: the search runs all ITERATIONS attempts and returns a diff
    of 1 at least. *)
Theorem odd_roster_never_balances (players : list Player) (g : RNG) :
  (10 <= List.length players)%nat ->
  exists a b d,
    fst (search shuffle players g) = Ok (a, b, Fin d)
    /\ Z.odd d = Z.odd (sum_ranks players)
    /\ (Z.odd (sum_ranks players) = true ->
        List.length (snd (search shuffle players g)) = ITERATIONS
        /\ (1 <= d)%Z).
Proof.
  intros Hlen.
  destruct (search_result _ shuffle players g)
    as [(Hlt & _)
       | (_ & _ & Hbuilt & Hfull & i & it & h & Hnth & Hh & Hfin & Hok & _)];
    [lia | ].
  destruct (Hbuilt it (nth_error_In _ _ Hnth)) as (g' & h' & Hh' & Hbuild).
  rewrite Hh in Hh'. injection Hh' as <-.
  destruct (built_gap_parity _ _ _ Hbuild) as [_ Hpar].
  exists (team_a h), (team_b h), (gap_of h).
  split; [exact Hok | ]. split; [exact Hpar | ].
  intros Hodd. rewrite Hodd in Hpar. split.
  - destruct Hfull as [Hall | Hzero]; [exact Hall | ].
    rewrite Hfin in Hzero. apply is_zero_Fin in Hzero. simpl in Hzero.
    injection Hzero as Hzero. rewrite Hzero in Hpar. discriminate.
  - assert (0 <= gap_of h)%Z by (unfold gap_of; lia).
    destruct (Z.eq_dec (gap_of h) 0) as [Hz | Hnz]; [ | lia].
    rewrite Hz in Hpar. discriminate.
Qed.

End SearchOutcome.

(* ------------------------------------------------------------------ *)
(** ** The exported workbook *)

Lemma build_df_rows (t : team) (jersey : string) :
  build_df t jersey
  = map (fun p => {| cell_Name := name p; cell_Rank := rank p;
                     cell_Position := "F"; cell_Jersey := jersey |}) (F t)
    ++ map (fun p => {| cell_Name := name p; cell_Rank := rank p;
                        cell_Position := "D"; cell_Jersey := jersey |}) (D t).
Proof. unfold build_df, listed. simpl. now rewrite app_nil_r. Qed.

Lemma rank_column_sum_app (l m : list SheetRow) :
  rank_column_sum (l ++ m) = (rank_column_sum l + rank_column_sum m)%Z.
Proof. induction l as [|r l IH]; simpl; [reflexivity | rewrite IH; lia]. Qed.

Lemma rank_column_sum_map (pos jersey : string) (l : list Player) :
  rank_column_sum
    (map (fun p => {| cell_Name := name p; cell_Rank := rank p;
                      cell_Position := pos; cell_Jersey := jersey |}) l)
  = sum_ranks l.
Proof. induction l as [|p l IH]; simpl; [reflexivity | now rewrite IH]. Qed.

Lemma build_df_rank_sum (t : team) (jersey : string) :
  rank_column_sum (build_df t jersey) = sum_ranks (members t).
Proof.
  rewrite build_df_rows, rank_column_sum_app, !rank_column_sum_map.
  unfold members. now rewrite sum_ranks_app.
Qed.

Lemma build_df_names (t : team) (jersey : string) :
  map (fun r => (cell_Name r, cell_Rank r)) (build_df t jersey)
  = map (fun p => (name p, rank p)) (members t).
Proof.
  rewrite build_df_rows. unfold members. now rewrite !map_app, !map_map.
Qed.

Lemma build_df_columns (t : team) (jersey : string) :
  Forall (fun r => is_role (cell_Position r) /\ cell_Jersey r = jersey)
         (build_df t jersey).
Proof.
  rewrite build_df_rows. apply Forall_app. split; apply Forall_map;
    apply Forall_forall; intros p _; simpl; split;
    solve [reflexivity | now left | now right].
Qed.

Section ExportFacts.

Variable RNG : Type.
Variable shuffle : RNG -> list Player -> list Player * RNG.
Hypothesis shuffle_permutes :
  forall g l, Permutation l (fst (shuffle g l)).

(** X15.  The workbook written for the teams [build_teams] returns, as
    [generate_teams] has it written, is consistent: the two team sheets
    list every selected player on exactly one of them, by name and rank,
    under the slot played (F or D) and the team's jersey; the totals on the
    Summary sheet are the sums of the Rank columns of the two sheets, and
    the Skill Difference is the distance between those sums. *)
Theorem exported_workbook_consistent
    (df : DataFrame) (g : RNG) (players : list Player) :
  load_players df = Ok players ->
  (10 <= List.length players)%nat ->
  exists a b d light dark,
    fst (build_teams shuffle df g) = Ok (a, b, Fin d)
    /\ export_workbook a b (Fin d)
       = (OUTPUT_FILE,
          [ (TEAM_A_NAME, TeamSheet light);
            (TEAM_B_NAME, TeamSheet dark);
            ("Summary"%string,
             SummarySheet
               [ ("Light Team Total Rank"%string, Fin (rank_column_sum light));
                 ("Dark Team Total Rank"%string, Fin (rank_column_sum dark));
                 ("Skill Difference"%string,
                  Fin (Z.abs (rank_column_sum light - rank_column_sum dark))) ]) ])
    /\ Permutation (map (fun r => (cell_Name r, cell_Rank r)) (light ++ dark))
                   (map (fun p => (name p, rank p)) players)
    /\ Forall (fun r => is_role (cell_Position r)
                        /\ cell_Jersey r = TEAM_A_JERSEY) light
    /\ Forall (fun r => is_role (cell_Position r)
                        /\ cell_Jersey r = TEAM_B_JERSEY) dark.
Proof.
  intros Hload Hlen. unfold build_teams. rewrite Hload.
  destruct (search_result _ shuffle players g)
    as [(Hlt & _)
       | (_ & _ & Hbuilt & _ & i & it & h & Hnth & Hh & _ & Hok & _)];
    [lia | ].
  destruct (Hbuilt it (nth_error_In _ _ Hnth)) as (g' & h' & Hh' & Hbuild).
  rewrite Hh in Hh'. injection Hh' as <-.
  destruct (built_gap_parity _ shuffle shuffle_permutes _ _ _ Hbuild)
    as [Hperm _].
  destruct (build_totals _ _ Hbuild) as [Ha Hb].
  exists (team_a h), (team_b h), (gap_of h),
    (build_df (team_a h) TEAM_A_JERSEY), (build_df (team_b h) TEAM_B_JERSEY).
  split; [exact Hok | ]. split.
  - unfold export_workbook. rewrite !build_df_rank_sum, <- Ha, <- Hb.
    reflexivity.
  - split; [ | split; apply build_df_columns].
    rewrite map_app, !build_df_names, <- map_app.
    apply Permutation_map. exact Hperm.
Qed.

End ExportFacts.

(* ------------------------------------------------------------------ *)
(** ** Numbers and booleans in the Selected column *)

Lemma decimal_char_plain (c : ascii) :
  decimal_char c = true ->
  PyStr.isspace c = false /\ PyStr.upper_char c = c.
Proof.
  destruct c as [[] [] [] [] [] [] [] []]; vm_compute;
    intros H; first [discriminate H | split; reflexivity].
Qed.

Lemma upper_decimal (s : string) :
  every_char decimal_char s = true -> PyStr.upper s = s.
Proof.
  induction s as [|c s IH]; simpl; [reflexivity | ].
  intros H. apply andb_prop in H. destruct H as [Hc Hs].
  now rewrite (proj2 (decimal_char_plain c Hc)), IH.
Qed.

Lemma rstrip_decimal (s : string) :
  every_char decimal_char s = true -> PyStr.rstrip s = s.
Proof.
  induction s as [|c s IH]; simpl; [reflexivity | ].
  intros H. apply andb_prop in H. destruct H as [Hc Hs].
  rewrite (IH Hs). destruct s; [ | reflexivity].
  now rewrite (proj1 (decimal_char_plain c Hc)).
Qed.

Lemma strip_decimal (s : string) :
  every_char decimal_char s = true -> PyStr.strip s = s.
Proof.
  intros H. unfold PyStr.strip.
  assert (Hl : PyStr.lstrip s = s).
  { destruct s as [|c s]; [reflexivity | ]. simpl in *.
    apply andb_prop in H. destruct H as [Hc _].
    now rewrite (proj1 (decimal_char_plain c Hc)). }
  rewrite Hl. now apply rstrip_decimal.
Qed.

Lemma string_of_uint_decimal (d : Decimal.uint) :
  every_char decimal_char (NilEmpty.string_of_uint d) = true.
Proof. induction d; simpl; try reflexivity; exact IHd. Qed.

Lemma py_str_int_decimal (z : Z) :
  every_char decimal_char (py_str (VInt z)) = true.
Proof.
  unfold py_str, NilZero.string_of_int, NilZero.string_of_uint.
  destruct (Z.to_int z) as [d|d]; destruct d; simpl; try reflexivity;
    apply string_of_uint_decimal.
Qed.

Lemma to_int_proper (z : Z) :
  Z.to_int z <> Decimal.Pos Decimal.Nil /\ Z.to_int z <> Decimal.Neg Decimal.Nil.
Proof.
  destruct z as [|p|p]; simpl; split; try discriminate;
    intros [= H]; exact (Unsigned.to_uint_nonnil p H).
Qed.

Lemma py_str_int_inj (z z' : Z) :
  py_str (VInt z) = py_str (VInt z') -> z = z'.
Proof.
  simpl. intros H. apply DecimalZ.to_int_inj.
  destruct (to_int_proper z) as [Hp Hn]. destruct (to_int_proper z') as [Hp' Hn'].
  pose proof (NilZero.isi _ Hp Hn) as H1. pose proof (NilZero.isi _ Hp' Hn') as H2.
  rewrite H in H1. rewrite H1 in H2. now injection H2.
Qed.

(** X16.  Of the integers only 1 counts as selected, and of the booleans
    only True: a cell holding 0, 2 or -1 is not selected. *)
Theorem numbers_selected :
  (forall z : Z, is_selected (VInt z) = true <-> z = 1%Z)
  /\ (forall b : bool, is_selected (VBool b) = b).
Proof.
  split; [ | intros []; reflexivity].
  intros z. split; [ | intros ->; reflexivity].
  unfold is_selected. simpl isna. cbv iota.
  pose proof (py_str_int_decimal z) as Hdec.
  remember (py_str (VInt z)) as s eqn:Hs.
  rewrite (strip_decimal _ Hdec), (upper_decimal _ Hdec).
  rewrite PyStrFacts.mem_In. unfold TRUTHY. simpl In.
  intros [H | [H | [H | [H | []]]]]; subst s.
  - rewrite <- H in Hdec. discriminate.
  - apply py_str_int_inj. rewrite <- H. reflexivity.
  - rewrite <- H in Hdec. discriminate.
  - rewrite <- H in Hdec. discriminate.
Qed.

(* ------------------------------------------------------------------ *)
(** ** The further properties on concrete input *)

Lemma missing_column_rejected_witness :
  build_teams rotate headless_night 0%nat
  = (Raise (ValueError "Excel must contain Selected, Name, Rank, Position"), []).
Proof.
  apply (missing_column_rejected nat rotate headless_night 0%nat "Selected").
  - simpl. auto.
  - simpl. intros [H | [H | [H | []]]]; discriminate H.
Defined.

Lemma first_bad_row_decides_witness :
  load_players broken_night = Raise RankError
  <-> exists pre row post,
        selected_rows (rows broken_night) = pre ++ row :: post
        /\ Forall (fun r => (exists z, py_int (Rank r) = Ok z)
                            /\ (exists s, Position r = VStr s)) pre
        /\ ((py_int (Rank row) = Raise RankError /\ RankError = RankError)
            \/ ((exists z, py_int (Rank row) = Ok z)
                /\ (forall s, Position row <> VStr s)
                /\ RankError = AttributeError)).
Proof.
  apply (first_bad_row_decides broken_night RankError).
  - vm_compute. reflexivity.
  - simpl. intros c [<- | [<- | [<- | [<- | []]]]]; simpl; auto.
Defined.

Lemma position_spelling_witness :
  Forall2
    (fun row p =>
       exists s,
         Position row = VStr s
         /\ (position p = "F"%string
             <-> PyStr.strip s = "F"%string \/ PyStr.strip s = "f"%string)
         /\ (position p = "D"%string
             <-> PyStr.strip s = "D"%string \/ PyStr.strip s = "d"%string))
    (selected_rows (rows game_night)) game_night_players.
Proof.
  apply (position_spelling game_night game_night_players).
  - vm_compute. reflexivity.
  - reflexivity.
Defined.

Lemma fallback_places_forward_witness :
  place_player full_forwards forward_player
  = Ok (store full_forwards RefA
          {| F := F (deref full_forwards RefA) ++ [forward_player];
             D := D (deref full_forwards RefA);
             total := total (deref full_forwards RefA) + rank forward_player |}).
Proof.
  apply (fallback_places_forward full_forwards forward_player). reflexivity.
Defined.

Lemma attempt_conserves_ranks_witness :
  exists h,
    fst (attempt_build rotate 0%nat game_night_players) = Ok h
    /\ Permutation (roster h) game_night_players
    /\ total (team_a h) = sum_ranks (members (team_a h))
    /\ total (team_b h) = sum_ranks (members (team_b h))
    /\ (total (team_a h) + total (team_b h))%Z = sum_ranks game_night_players.
Proof.
  apply (attempt_conserves_ranks nat rotate rotate_permutes 0%nat
           game_night_players).
Defined.

Lemma placement_closes_gap_witness :
  (both_offered start goalie = true ->
   gap_of goalie_placed = Z.abs (gap_of start - Z.abs (rank goalie)))
  /\ (exists r pos, best_move start goalie = Some (r, pos)
                    /\ gap_of goalie_placed = projected_gap start goalie r).
Proof.
  apply (placement_closes_gap start goalie_placed goalie). reflexivity.
Defined.

Lemma balanced_run_bound_witness :
  exists h, build start game_night_players = Ok h /\ (gap_of h <= 9)%Z.
Proof.
  apply (balanced_run_bound game_night_players 9).
  - vm_compute. reflexivity.
  - repeat constructor; simpl; lia.
  - lia.
Defined.

Lemma search_returns_first_least_witness :
  let log := snd (search rotate even_night_players 0%nat) in
  exists i it h,
    nth_error log i = Some it /\ attempt it = Ok h
    /\ even_night_light = team_a h /\ even_night_dark = team_b h
    /\ Fin 0 = Fin (gap_of h)
    /\ forall j itj hj, nth_error log j = Some itj -> attempt itj = Ok hj ->
         (gap_of h <= gap_of hj)%Z /\ ((j < i)%nat -> (gap_of h < gap_of hj)%Z).
Proof.
  apply (search_returns_first_least nat rotate even_night_players 0%nat
           even_night_light even_night_dark (Fin 0)).
  vm_compute. reflexivity.
Defined.

Lemma search_runs_all_unless_balanced_witness :
  let log := snd (search rotate even_night_players 0%nat) in
  (1 <= List.length log)%nat
  /\ (List.length log = ITERATIONS
      \/ exists a b, fst (search rotate even_night_players 0%nat)
                     = Ok (a, b, Fin 0)).
Proof.
  apply (search_runs_all_unless_balanced nat rotate even_night_players 0%nat).
  simpl. lia.
Defined.

Lemma odd_roster_never_balances_witness :
  exists a b d,
    fst (search rotate game_night_players 0%nat) = Ok (a, b, Fin d)
    /\ Z.odd d = Z.odd (sum_ranks game_night_players)
    /\ (Z.odd (sum_ranks game_night_players) = true ->
        List.length (snd (search rotate game_night_players 0%nat)) = ITERATIONS
        /\ (1 <= d)%Z).
Proof.
  apply (odd_roster_never_balances nat rotate rotate_permutes
           game_night_players 0%nat).
  simpl. lia.
Defined.

Lemma exported_workbook_consistent_witness :
  exists a b d light dark,
    fst (build_teams rotate game_night 0%nat) = Ok (a, b, Fin d)
    /\ export_workbook a b (Fin d)
       = (OUTPUT_FILE,
          [ (TEAM_A_NAME, TeamSheet light);
            (TEAM_B_NAME, TeamSheet dark);
            ("Summary"%string,
             SummarySheet
               [ ("Light Team Total Rank"%string, Fin (rank_column_sum light));
                 ("Dark Team Total Rank"%string, Fin (rank_column_sum dark));
                 ("Skill Difference"%string,
                  Fin (Z.abs (rank_column_sum light - rank_column_sum dark))) ]) ])
    /\ Permutation (map (fun r => (cell_Name r, cell_Rank r)) (light ++ dark))
                   (map (fun p => (name p, rank p)) game_night_players)
    /\ Forall (fun r => is_role (cell_Position r)
                        /\ cell_Jersey r = TEAM_A_JERSEY) light
    /\ Forall (fun r => is_role (cell_Position r)
                        /\ cell_Jersey r = TEAM_B_JERSEY) dark.
Proof.
  apply (exported_workbook_consistent nat rotate rotate_permutes
           game_night 0%nat game_night_players).
  - reflexivity.
  - simpl. lia.
Defined.

(** The sheet with a malformed second row is refused for that row's Rank,
    its blank Position not being reached. *)
Example broken_night_raises : load_players broken_night = Raise RankError.
Proof. reflexivity. Qed.

Lemma is_selected_exactly_witness :
  (is_selected (VStr " Yes ") = true <-> selected_spec (VStr " Yes "))
  /\ (is_selected (VStr " Yes ") = false <-> ~ selected_spec (VStr " Yes "))
  /\ (isna (VStr " Yes ") = true
      \/ PyStr.strip (py_str (VStr " Yes ")) = EmptyString ->
      is_selected (VStr " Yes ") = false).
Proof.
  apply (is_selected_exactly (VStr " Yes ")). vm_compute. reflexivity.
Defined.

Lemma load_players_ok_iff_witness :
  load_players game_night = Ok game_night_players
  <-> (forall c, In c required_columns -> In c (columns game_night))
      /\ Forall2
           (fun row p =>
              exists r s,
                py_int (Rank row) = Ok r /\ Position row = VStr s
                /\ p = {| name := Name row; rank := r;
                          position := PyStr.upper (PyStr.strip s) |})
           (selected_rows (rows game_night)) game_night_players.
Proof.
  apply (load_players_ok_iff game_night game_night_players).
  vm_compute. reflexivity.
Defined.

(** Blanks as Python has them: the no-break space is one for [str.strip]
    and for [int], the separator 0x1C for [str.strip] only; [int] stops at
    4300 digits. *)
Example blanks_as_python_has_them :
  is_selected (VStr (String (ascii_of_nat 160) "yes")) = true
  /\ strip_upper (VStr (String (ascii_of_nat 160) "d")) = Ok "D"%string
  /\ is_selected (VStr (String (ascii_of_nat 28) "y")) = true
  /\ int_of_text (String (ascii_of_nat 160) "5") = Some 5%Z
  /\ int_of_text (String (ascii_of_nat 28) "5") = None
  /\ int_of_text " -1_000 " = Some (-1000)%Z
  /\ int_of_text "- 5" = None.
Proof. repeat split; reflexivity. Qed.

Lemma int_rstrip_ones (n : nat) : int_rstrip (ones n) = ones n.
Proof.
  induction n as [|n IH]; [reflexivity | ].
  cbn [ones int_rstrip]. rewrite IH. now destruct n.
Qed.

Lemma count_digits_ones (n : nat) : count_digits (ones n) = n.
Proof. induction n as [|n IH]; [reflexivity | ]. cbn. now rewrite IH. Qed.

(** [int] refuses a literal of more than INT_MAX_STR_DIGITS digits. *)
Lemma int_of_text_limit (n : nat) :
  (INT_MAX_STR_DIGITS < n)%nat -> int_of_text (ones n) = None.
Proof.
  intros Hn. unfold int_of_text.
  assert (Hl : int_lstrip (ones n) = ones n) by now destruct n.
  rewrite Hl, int_rstrip_ones.
  assert (Hs : (let t := ones n in
                match t with
                | String "+" r => (false, r)
                | String "-" r => (true, r)
                | _ => (false, t)
                end) = (false, ones n)) by now destruct n.
  cbv zeta in Hs. rewrite Hs. cbn [fst snd].
  rewrite count_digits_ones.
  destruct (digits 0 false (ones n)); [ | reflexivity].
  now rewrite (proj2 (Nat.ltb_lt _ _) Hn).
Qed.
